(** * numcodecs_replace: the value replacement filter codec

    A shallow embedding of [src/numcodecs_replace/__init__.py]: the
    [Replacement] enumeration with its [compute] method and the
    [ReplaceFilterCodec] class ([__init__], [encode], [decode],
    [get_config]).

    Arrays live in a store and are handled through references, as numpy
    arrays are in Python, so that copying and in-place assignment can be
    told apart.  Array elements are kept as 64-bit patterns; the element
    types covered are [int64] and [float64], the two that the test suite
    of the package exercises. *)

From Stdlib Require Import ZArith Lia SpecFloat.
From stdpp Require Import base option list gmap strings.

Local Open Scope Z_scope.

(** ** IEEE 754 binary64 values as bit patterns *)

Module Binary64.

Definition prec : Z := 53.
Definition emax : Z := 1024.

Definition sign (b : Z) : bool := Z.testbit b 63.
Definition biased_exponent (b : Z) : Z := Z.land (Z.shiftr b 52) 0x7FF.
Definition fraction (b : Z) : Z := Z.land b 0xFFFFFFFFFFFFF.

(** The value denoted by a bit pattern.  Every pattern whose exponent
    field is all ones and whose fraction is not zero is a NaN: the sign
    bit, the quiet bit and the payload play no role. *)
Definition to_spec (b : Z) : spec_float :=
  let s := sign b in
  let e := biased_exponent b in
  let m := fraction b in
  if e =? 0 then
    match m with
    | Zpos q => S754_finite s q (-1074)
    | _ => S754_zero s
    end
  else if e =? 0x7FF then
    if m =? 0 then S754_infinity s else S754_nan
  else S754_finite s (Z.to_pos (m + 0x10000000000000)) (e - 1075).

Definition sign_field (s : bool) : Z :=
  if s then 0x8000000000000000 else 0.

(** The bit pattern of a value; [nan] is the pattern stored for a NaN. *)
Definition of_spec (nan : Z) (f : spec_float) : Z :=
  match f with
  | S754_zero s => sign_field s
  | S754_infinity s => sign_field s + 0x7FF0000000000000
  | S754_nan => nan
  | S754_finite s m e =>
      if Zpos m <? 0x10000000000000
      then sign_field s + Zpos m
      else sign_field s + Z.shiftl (e + 1075) 52 + (Zpos m - 0x10000000000000)
  end.

Definition is_nan (f : spec_float) : bool :=
  match f with S754_nan => true | _ => false end.

Definition is_finite (f : spec_float) : bool :=
  match f with S754_zero _ | S754_finite _ _ _ => true | _ => false end.

Definition eqb : spec_float -> spec_float -> bool := SFeqb.
Definition leb : spec_float -> spec_float -> bool := SFleb.
Definition add : spec_float -> spec_float -> spec_float := SFadd prec emax.
Definition div : spec_float -> spec_float -> spec_float := SFdiv prec emax.

(** Conversion of an integer, rounding to nearest, ties to even. *)
Definition of_int (z : Z) : spec_float := binary_normalize prec emax z 0 false.

(** Truncation towards zero; [None] for NaN and the infinities. *)
Definition trunc (f : spec_float) : option Z :=
  match f with
  | S754_zero _ => Some 0
  | S754_finite s m e => Some (cond_Zopp s (Z.shiftl (Zpos m) e))
  | S754_infinity _ | S754_nan => None
  end.

Definition pos_zero : Z := 0.
Definition neg_zero : Z := 0x8000000000000000.
Definition pos_inf : Z := 0x7FF0000000000000.
Definition neg_inf : Z := 0xFFF0000000000000.
Definition pos_nan : Z := 0x7FF8000000000000.
Definition neg_nan : Z := 0xFFF8000000000000.
(** [np.finfo(np.float64).max] and [.min] *)
Definition finfo_max : Z := 0x7FEFFFFFFFFFFFFF.
Definition finfo_min : Z := 0xFFEFFFFFFFFFFFFF.

End Binary64.

(** ** Two's complement 64-bit integers as bit patterns *)

Module Int64.

Definition modulus : Z := 0x10000000000000000.
(** [np.iinfo(np.int64).max] and [.min] *)
Definition iinfo_max : Z := 0x7FFFFFFFFFFFFFFF.
Definition iinfo_min : Z := - 0x8000000000000000.

Definition signed (b : Z) : Z :=
  let u := b mod modulus in
  if u <? 0x8000000000000000 then u else u - modulus.

Definition to_bits (z : Z) : Z := z mod modulus.

Definition in_range (z : Z) : bool := (iinfo_min <=? z) && (z <=? iinfo_max).

End Int64.

(** ** What the source leaves to the machine

    Two results are not fixed by numpy but by the processor it runs on: the
    bit pattern of a NaN that an arithmetic operation creates, and the
    integer that the C cast of [astype] gives for a NaN or for a value out
    of the range of the integer type. *)

Inductive platform := x86_64 | aarch64.

Definition default_nan (p : platform) : Z :=
  match p with
  | x86_64 => Binary64.neg_nan
  | aarch64 => Binary64.pos_nan
  end.

(** The C conversion of a double to a 64-bit integer. *)
Definition double_to_long (p : platform) (f : spec_float) : Z :=
  match Binary64.trunc f with
  | Some z =>
      if Int64.in_range z then z
      else match p with
           | x86_64 => Int64.iinfo_min
           | aarch64 => if z <? 0 then Int64.iinfo_min else Int64.iinfo_max
           end
  | None =>
      match p, f with
      | x86_64, _ => Int64.iinfo_min
      | aarch64, S754_infinity false => Int64.iinfo_max
      | aarch64, S754_infinity true => Int64.iinfo_min
      | aarch64, _ => 0
      end
  end.

(** ** Python values and exceptions *)

Inductive exn :=
  | KeyError (name : string)
  | OverflowError
  | ValueError
  | UnknownCodecError (codec_id : string)
  (* not a Python exception: a reference to nothing in the store, which
     cannot be written in Python *)
  | InvalidReference.

Inductive result (A : Type) :=
  | Ok (a : A)
  | Raise (e : exn).
Arguments Ok {A} a.
Arguments Raise {A} e.

(** A Python number, [int | float]: an unbounded integer or a double. *)
Inductive pynum :=
  | PyInt (z : Z)
  | PyFloat (bits : Z).

(** [float(z)]: raises when the integer is too large for a double. *)
Definition pyint_to_double (z : Z) : result spec_float :=
  match Binary64.of_int z with
  | S754_infinity _ => Raise OverflowError
  | f => Ok f
  end.

(** [int(f)] on a Python float. *)
Definition pyfloat_to_int (bits : Z) : result Z :=
  match Binary64.to_spec bits with
  | S754_nan => Raise ValueError
  | S754_infinity _ => Raise OverflowError
  | f => match Binary64.trunc f with Some z => Ok z | None => Raise ValueError end
  end.

(** A value assigned into an array, [int | float | np.number]: a Python
    number, or a numpy scalar of the element type of the array. *)
Inductive scalar :=
  | Num (n : pynum)
  | Number (bits : Z).

(** ** Arrays *)

Inductive np_dtype := int64 | float64.

Record ndarray := mk_ndarray {
  dtype : np_dtype;
  shape : list nat;
  data : list Z;
}.

Definition with_data (x : ndarray) (d : list Z) : ndarray :=
  {| dtype := dtype x; shape := shape x; data := d |}.

(** ** The numpy operations the source calls *)

Module np.

Definition issubdtype_floating (dt : np_dtype) : bool :=
  match dt with float64 => true | int64 => false end.

Definition info_max (dt : np_dtype) : Z :=
  match dt with
  | float64 => Binary64.finfo_max
  | int64 => Int64.to_bits Int64.iinfo_max
  end.

Definition info_min (dt : np_dtype) : Z :=
  match dt with
  | float64 => Binary64.finfo_min
  | int64 => Int64.to_bits Int64.iinfo_min
  end.

Definition isnan_elem (dt : np_dtype) (b : Z) : bool :=
  match dt with
  | float64 => Binary64.is_nan (Binary64.to_spec b)
  | int64 => false
  end.

Definition isfinite_elem (dt : np_dtype) (b : Z) : bool :=
  match dt with
  | float64 => Binary64.is_finite (Binary64.to_spec b)
  | int64 => true
  end.

(** [np.isnan(x)] and [np.isfinite(x)]: boolean masks *)
Definition isnan (x : ndarray) : list bool := map (isnan_elem (dtype x)) (data x).
Definition isfinite (x : ndarray) : list bool := map (isfinite_elem (dtype x)) (data x).

(** The elements picked by a [where=] mask, in iteration order. *)
Fixpoint select (mask : list bool) (l : list Z) : list Z :=
  match mask, l with
  | m :: mask', b :: l' => if m then b :: select mask' l' else select mask' l'
  | _, _ => []
  end.

Definition le (dt : np_dtype) (a b : Z) : bool :=
  match dt with
  | float64 => Binary64.leb (Binary64.to_spec a) (Binary64.to_spec b)
  | int64 => Int64.signed a <=? Int64.signed b
  end.

(** One step of the [minimum], [maximum], [fmin] and [fmax] reductions,
    on the accumulator [io1] and the next element [in2]. *)
Definition minimum (dt : np_dtype) (io1 in2 : Z) : Z :=
  if le dt io1 in2 || isnan_elem dt io1 then io1 else in2.
Definition maximum (dt : np_dtype) (io1 in2 : Z) : Z :=
  if le dt in2 io1 || isnan_elem dt io1 then io1 else in2.
Definition fmin (dt : np_dtype) (io1 in2 : Z) : Z :=
  if le dt io1 in2 || isnan_elem dt in2 then io1 else in2.
Definition fmax (dt : np_dtype) (io1 in2 : Z) : Z :=
  if le dt in2 io1 || isnan_elem dt in2 then io1 else in2.

(** [np.amin(x, initial=.., where=..)] and [np.amax] *)
Definition amin (x : ndarray) (initial : Z) (where_ : list bool) : Z :=
  fold_left (minimum (dtype x)) (select where_ (data x)) initial.
Definition amax (x : ndarray) (initial : Z) (where_ : list bool) : Z :=
  fold_left (maximum (dtype x)) (select where_ (data x)) initial.

(** [np.nanmin(x, initial=..)] and [np.nanmax]: [np.fmin.reduce] and
    [np.fmax.reduce] *)
Definition nanmin (x : ndarray) (initial : Z) : Z :=
  fold_left (fmin (dtype x)) (data x) initial.
Definition nanmax (x : ndarray) (initial : Z) : Z :=
  fold_left (fmax (dtype x)) (data x) initial.

(** The double an element is summed as: integers are converted. *)
Definition as_double (dt : np_dtype) (b : Z) : spec_float :=
  match dt with
  | float64 => Binary64.to_spec b
  | int64 => Binary64.of_int (Int64.signed b)
  end.

(** [np.add.reduce] in double precision, from the identity [0.0], taken
    left to right. *)
Definition sum (l : list spec_float) : spec_float :=
  fold_left Binary64.add l (S754_zero false).

(** [np.mean(x, where=..)]: the sum of the selected elements divided by
    their number; [0.0 / 0] when nothing is selected. *)
Definition mean (x : ndarray) (where_ : list bool) : spec_float :=
  let sel := select where_ (data x) in
  Binary64.div (sum (map (as_double (dtype x)) sel))
               (Binary64.of_int (Z.of_nat (length sel))).

(** [np.nanmean(x)]: an integer array has no NaN and goes to [np.mean];
    in a floating array the NaNs are replaced by [0] before the sum and
    left out of the count. *)
Definition nanmean (x : ndarray) : spec_float :=
  match dtype x with
  | int64 => mean x (map (fun _ => true) (data x))
  | float64 =>
      let arr := map (fun b => if isnan_elem float64 b
                               then S754_zero false
                               else Binary64.to_spec b) (data x) in
      let cnt := length (filter (fun b => isnan_elem float64 b = false) (data x)) in
      Binary64.div (sum arr) (Binary64.of_int (Z.of_nat cnt))
  end.

(** [np.array(f).astype(dt)[()]] for a double [f] *)
Definition astype (p : platform) (f : spec_float) (dt : np_dtype) : Z :=
  match dt with
  | float64 => Binary64.of_spec (default_nan p) f
  | int64 => Int64.to_bits (double_to_long p f)
  end.

(** [np.isnan(k)] for a Python number *)
Definition isnan_scalar (k : pynum) : bool :=
  match k with
  | PyFloat bits => Binary64.is_nan (Binary64.to_spec bits)
  | PyInt _ => false
  end.

(** [x == k] for a Python number [k]: [k] takes the element type of the
    array, except that a Python float against an integer array makes the
    comparison one of doubles. *)
Definition equal (x : ndarray) (k : pynum) : result (list bool) :=
  match dtype x, k with
  | float64, PyFloat kb =>
      Ok (map (fun b => Binary64.eqb (Binary64.to_spec b) (Binary64.to_spec kb)) (data x))
  | float64, PyInt z =>
      match pyint_to_double z with
      | Ok f => Ok (map (fun b => Binary64.eqb (Binary64.to_spec b) f) (data x))
      | Raise e => Raise e
      end
  | int64, PyInt z =>
      Ok (map (fun b => Int64.signed b =? z) (data x))
  | int64, PyFloat kb =>
      Ok (map (fun b => Binary64.eqb (Binary64.of_int (Int64.signed b))
                                     (Binary64.to_spec kb)) (data x))
  end.

(** The element stored for [v] in an array of type [dt]. *)
Definition cast_scalar (dt : np_dtype) (v : scalar) : result Z :=
  match v, dt with
  | Number bits, _ => Ok bits
  | Num (PyFloat bits), float64 => Ok bits
  | Num (PyInt z), float64 =>
      match pyint_to_double z with
      | Ok f => Ok (Binary64.of_spec Binary64.pos_nan f)
      | Raise e => Raise e
      end
  | Num (PyInt z), int64 =>
      if Int64.in_range z then Ok (Int64.to_bits z) else Raise OverflowError
  | Num (PyFloat bits), int64 =>
      match pyfloat_to_int bits with
      | Ok z => if Int64.in_range z then Ok (Int64.to_bits z) else Raise OverflowError
      | Raise e => Raise e
      end
  end.

Definition put_mask (mask : list bool) (b : Z) (l : list Z) : list Z :=
  zip_with (fun (m : bool) old => if m then b else old) mask l.

(** [x[mask] = v], as the array that [x] becomes *)
Definition setitem_mask (x : ndarray) (mask : list bool) (v : scalar) : result ndarray :=
  match cast_scalar (dtype x) v with
  | Ok b => Ok (with_data x (put_mask mask b (data x)))
  | Raise e => Raise e
  end.

End np.

(** ** [class Replacement(Enum)] *)

Inductive Replacement :=
  | finite_min
  | finite_mean
  | finite_max
  | nan_min
  | nan_mean
  | nan_max.

(** [Replacement.compute(self, x)] *)
Definition compute (p : platform) (self : Replacement) (x : ndarray) : Z :=
  let is_floating := np.issubdtype_floating (dtype x) in
  match self with
  | finite_min => np.amin x (np.info_max (dtype x)) (np.isfinite x)
  | finite_mean => np.astype p (np.mean x (np.isfinite x)) (dtype x)
  | finite_max => np.amax x (np.info_min (dtype x)) (np.isfinite x)
  | nan_min =>
      np.nanmin x (if is_floating then Binary64.pos_inf else np.info_max (dtype x))
  | nan_mean => np.astype p (np.nanmean x) (dtype x)
  | nan_max =>
      np.nanmax x (if is_floating then Binary64.neg_inf else np.info_min (dtype x))
  end.


(** [Replacement[name]]: the member of that name, or [KeyError]. *)
Definition Replacement_name (r : Replacement) : string :=
  match r with
  | finite_min => "finite_min"
  | finite_mean => "finite_mean"
  | finite_max => "finite_max"
  | nan_min => "nan_min"
  | nan_mean => "nan_mean"
  | nan_max => "nan_max"
  end.

Definition Replacement_members : list Replacement :=
  [finite_min; finite_mean; finite_max; nan_min; nan_mean; nan_max].

Definition Replacement_getitem (name : string) : result Replacement :=
  match find (fun r => String.eqb (Replacement_name r) name) Replacement_members with
  | Some r => Ok r
  | None => Raise (KeyError name)
  end.

(** [str(r)]: [Enum.__str__] gives the class name, a dot, the member name. *)
Definition Replacement_str (r : Replacement) : string :=
  "Replacement." ++ Replacement_name r.

(** ** The store of arrays *)

Abbreviation loc := positive (only parsing).
Abbreviation store := (gmap positive ndarray) (only parsing).

(** Computations that read and write the store and may raise; the store
    is kept when an exception is raised. *)
Definition M (A : Type) : Type := store -> result A * store.

Definition ret {A} (a : A) : M A := fun h => (Ok a, h).
Definition raise {A} (e : exn) : M A := fun h => (Raise e, h).
Definition bind {A B} (m : M A) (k : A -> M B) : M B :=
  fun h => match m h with
           | (Ok a, h') => k a h'
           | (Raise e, h') => (Raise e, h')
           end.
Definition lift {A} (r : result A) : M A := fun h => (r, h).

Declare Scope py_scope.
Delimit Scope py_scope with py.
Notation "x <- m ;; k" := (bind m (fun x => k))
  (at level 100, m at next level, right associativity) : py_scope.
Notation "m ;; k" := (bind m (fun _ => k))
  (at level 100, right associativity) : py_scope.
Local Open Scope py_scope.

Definition deref (l : loc) : M ndarray :=
  fun h => match h !! l with
           | Some x => (Ok x, h)
           | None => (Raise InvalidReference, h)
           end.

Definition alloc (x : ndarray) : M loc :=
  fun h => let l := fresh (dom h) in (Ok l, <[l := x]> h).

Definition assign (l : loc) (x : ndarray) : M unit :=
  fun h => (Ok tt, <[l := x]> h).

(** [for x in l: body(x)] *)
Fixpoint for_each {A} (l : list A) (body : A -> M unit) : M unit :=
  match l with
  | [] => ret tt
  | x :: l' => body x ;; for_each l' body
  end.

(** [{k: f(v) for k, v in items}] over the items of a dict, in its order *)
Fixpoint dict_comp {K A B} (f : A -> M B) (items : list (K * A)) : M (list (K * B)) :=
  match items with
  | [] => ret []
  | (k, v) :: items' =>
      w <- f v ;;
      rest <- dict_comp f items' ;;
      ret ((k, w) :: rest)
  end.

(** The same comprehension where [f] does not touch the store. *)
Fixpoint dict_comp_pure {K A B} (f : A -> result B) (items : list (K * A))
  : result (list (K * B)) :=
  match items with
  | [] => Ok []
  | (k, v) :: items' =>
      match f v with
      | Raise e => Raise e
      | Ok w =>
          match dict_comp_pure f items' with
          | Raise e => Raise e
          | Ok rest => Ok ((k, w) :: rest)
          end
      end
  end.

(** [np.copy(x)]: a new array with the contents of [x] *)
Definition np_copy (x : loc) : M loc :=
  arr <- deref x ;; alloc arr.

(** [a == k], [np.isnan(a)] and [a[mask] = v] on an array of the store *)
Definition np_equal (a : loc) (k : pynum) : M (list bool) :=
  x <- deref a ;; lift (np.equal x k).

Definition np_isnan (a : loc) : M (list bool) :=
  x <- deref a ;; ret (np.isnan x).

Definition np_setitem (a : loc) (mask : list bool) (v : scalar) : M unit :=
  x <- deref a ;;
  x' <- lift (np.setitem_mask x mask v) ;;
  assign a x'.

(** [numcodecs.compat.ensure_ndarray(buf)]: an array is returned as it is *)
Definition ensure_ndarray (buf : loc) : loc := buf.

(** [numcodecs.compat.ndarray_copy(src, dst)]: without [dst] the source is
    returned; with it, the elements of [src] are copied into [dst], which
    must have as many. *)
Definition ndarray_copy (src : loc) (dst : option loc) : M loc :=
  match dst with
  | None => ret src
  | Some d =>
      s <- deref (ensure_ndarray src) ;;
      t <- deref (ensure_ndarray d) ;;
      if Nat.eqb (length (data s)) (length (data t))
      then assign d (with_data t (data s)) ;; ret d
      else raise ValueError
  end.

(** ** [class ReplaceFilterCodec(Codec)] *)

(** A value of the [replacements] argument of [__init__]:
    [int | float | Replacement | Literal["finite_min", ...]] *)
Inductive config_value :=
  | CNum (n : pynum)
  | CSpecial (r : Replacement)
  | CStr (s : string).

(** A value of [self._replacements]: [int | float | Replacement] *)
Inductive replacement_value :=
  | RNum (n : pynum)
  | RSpecial (r : Replacement).

Record ReplaceFilterCodec := mk_codec {
  _replacements : list (pynum * replacement_value);
}.

Definition codec_id : string := "replace.filter".

(** [ReplaceFilterCodec.__init__(self, *, replacements)] *)
Definition __init__ (replacements : list (pynum * config_value))
  : result ReplaceFilterCodec :=
  match
    dict_comp_pure
      (fun v => match v with
                | CStr s =>
                    match Replacement_getitem s with
                    | Ok r => Ok (RSpecial r)
                    | Raise e => Raise e
                    end
                | CSpecial r => Ok (RSpecial r)
                | CNum n => Ok (RNum n)
                end)
      replacements
  with
  | Ok d => Ok (mk_codec d)
  | Raise e => Raise e
  end.

Definition isinstance_int (k : pynum) : bool :=
  match k with PyInt _ => true | PyFloat _ => false end.

Section Encode.

Context (p : platform).

(** The dict comprehension of [encode]: every special value is computed
    on [a]. *)
Definition resolve (a : loc) (v : replacement_value) : M scalar :=
  match v with
  | RSpecial r => x <- deref a ;; ret (Number (compute p r x))
  | RNum n => ret (Num n)
  end.

(** The body of the loop of [encode] *)
Definition replace (a : loc) (kv : pynum * scalar) : M unit :=
  let '(k, v) := kv in
  if isinstance_int k || negb (np.isnan_scalar k) then
    mask <- np_equal a k ;;
    np_setitem a mask v
  else
    mask <- np_isnan a ;;
    np_setitem a mask v.

(** [ReplaceFilterCodec.encode(self, buf)] *)
Definition encode (self : ReplaceFilterCodec) (buf : loc) : M loc :=
  a <- np_copy (ensure_ndarray buf) ;;
  replacements <- dict_comp (resolve a) (_replacements self) ;;
  for_each replacements (replace a) ;;
  ret a.

End Encode.

(** [ReplaceFilterCodec.decode(self, buf, out=None)] *)
Definition decode (self : ReplaceFilterCodec) (buf : loc) (out : option loc) : M loc :=
  ndarray_copy buf out.

Record config := mk_config {
  id : string;
  replacements : list (pynum * config_value);
}.

(** [ReplaceFilterCodec.get_config(self)] *)
Definition get_config (self : ReplaceFilterCodec) : config :=
  {| id := codec_id;
     replacements :=
       map (fun '(k, v) =>
              (k, match v with
                  | RSpecial r => CStr (Replacement_str r)
                  | RNum n => CNum n
                  end))
           (_replacements self) |}.

(** [numcodecs.registry.get_codec(config)] with this codec registered: the
    class is looked up by [id] and built from the other entries. *)
Definition get_codec (c : config) : result ReplaceFilterCodec :=
  if String.eqb (id c) codec_id
  then __init__ (replacements c)
  else Raise (UnknownCodecError (id c)).


(** ** What [encode] does to the contents of the working copy

    The functions below describe one run of [encode] on the contents of
    the arrays alone; [encode_run] shows that the code computes them. *)

Definition resolve_value (p : platform) (x : ndarray) (v : replacement_value) : scalar :=
  match v with
  | RSpecial r => Number (compute p r x)
  | RNum n => Num n
  end.

Definition resolved (p : platform) (x : ndarray)
    (rules : list (pynum * replacement_value)) : list (pynum * scalar) :=
  map (fun kv => (kv.1, resolve_value p x kv.2)) rules.

Definition replace_array (kv : pynum * scalar) (x : ndarray) : result ndarray :=
  let '(k, v) := kv in
  if isinstance_int k || negb (np.isnan_scalar k) then
    match np.equal x k with
    | Ok mask => np.setitem_mask x mask v
    | Raise e => Raise e
    end
  else np.setitem_mask x (np.isnan x) v.

(** The rules in order, up to the first that raises: the outcome and the
    contents reached. *)
Fixpoint replace_all (rs : list (pynum * scalar)) (x : ndarray) : result unit * ndarray :=
  match rs with
  | [] => (Ok tt, x)
  | r :: rs' =>
      match replace_array r x with
      | Ok x' => replace_all rs' x'
      | Raise e => (Raise e, x)
      end
  end.

(** ** Vocabulary of the statements *)

Definition is_ok {A} (r : result A) : bool :=
  match r with Ok _ => true | Raise _ => false end.

(** [w] is the value that [__init__] stores for the value [v] given to it. *)
Definition normalizes (v : config_value) (w : replacement_value) : Prop :=
  match v with
  | CStr s => exists r, w = RSpecial r /\ Replacement_name r = s
  | CSpecial r => w = RSpecial r
  | CNum n => w = RNum n
  end.

(** ** Arrays and configurations of the examples *)

(** [np.array([np.inf, -np.inf, np.nan, -np.nan, 0.0, -0.0])] *)
Definition nonfinite_array : ndarray :=
  mk_ndarray float64 [6%nat]
    [Binary64.pos_inf; Binary64.neg_inf; Binary64.pos_nan; Binary64.neg_nan;
     Binary64.pos_zero; Binary64.neg_zero].

(** [{np.inf: finite_max, -np.inf: finite_min, np.nan: nan_mean}] *)
Definition nonfinite_codec : ReplaceFilterCodec :=
  mk_codec [(PyFloat Binary64.pos_inf, RSpecial finite_max);
            (PyFloat Binary64.neg_inf, RSpecial finite_min);
            (PyFloat Binary64.pos_nan, RSpecial nan_mean)].

(** A store that holds one array, at the reference [1]. *)
Definition store_of (x : ndarray) : store := {[ 1%positive := x ]}.

(** [np.array([24])], of integers and of doubles *)
Definition int_24 : ndarray := mk_ndarray int64 [1%nat] [24].

(** [{24: 42, 42: 0}] and [{42: 0, 24: 42}] *)
Definition chain_codec : ReplaceFilterCodec :=
  mk_codec [(PyInt 24, RNum (PyInt 42)); (PyInt 42, RNum (PyInt 0))].

(** ** When a rule can be applied to an array of a given type

    A key or a value that is a Python number has to be converted to the
    element type; [encode] raises when a conversion fails. *)

Definition key_converts (dt : np_dtype) (k : pynum) : bool :=
  match dt, k with
  | float64, PyInt z => is_ok (pyint_to_double z)
  | _, _ => true
  end.

Definition rule_accepted (dt : np_dtype) (kv : pynum * replacement_value) : bool :=
  key_converts dt kv.1 &&
  match kv.2 with
  | RSpecial _ => true
  | RNum n => is_ok (np.cast_scalar dt (Num n))
  end.

(** The key is not NaN: the rule compares with [==]. *)
Definition compares_equal (k : pynum) : bool :=
  isinstance_int k || negb (np.isnan_scalar k).

(** [np.zeros((0,), dtype=np.int64)] *)
Definition empty_int64 : ndarray := mk_ndarray int64 [0%nat] [].

(** ** Ways of writing a rule in the argument of [__init__]

    A special value is given by the name of the member or as the member. *)

Definition by_name (kv : pynum * replacement_value) : pynum * config_value :=
  (kv.1, match kv.2 with
         | RSpecial r => CStr (Replacement_name r)
         | RNum n => CNum n
         end).

Definition by_member (kv : pynum * replacement_value) : pynum * config_value :=
  (kv.1, match kv.2 with
         | RSpecial r => CSpecial r
         | RNum n => CNum n
         end).

(** The elements that the rule of key [k] selects in [x]: the mask of the
    branch of the loop of [encode] that [k] takes. *)
Definition rule_mask (k : pynum) (x : ndarray) : result (list bool) :=
  if compares_equal k then np.equal x k else Ok (np.isnan x).

(** Rules whose numbers are of the kind of the element type: for an array
    of doubles, float keys and float or special values; for an array of
    integers, any key and special values or integers of the type. *)
Definition rule_typed (dt : np_dtype) (kv : pynum * replacement_value) : bool :=
  match dt, kv with
  | float64, (PyFloat _, RSpecial _) => true
  | float64, (PyFloat _, RNum (PyFloat _)) => true
  | float64, _ => false
  | int64, (_, RSpecial _) => true
  | int64, (_, RNum (PyInt z)) => Int64.in_range z
  | int64, _ => false
  end.

(** ** The order of doubles

    [SFcompare] orders the values that are not NaN as these keys are
    ordered, first component first. *)

Definition order_key (f : spec_float) : Z * Z * Z :=
  match f with
  | S754_infinity true => (-2, 0, 0)
  | S754_finite true m e => (-1, - e, - Zpos m)
  | S754_zero _ => (0, 0, 0)
  | S754_finite false m e => (1, e, Zpos m)
  | S754_infinity false => (2, 0, 0)
  | S754_nan => (3, 0, 0)
  end.

Definition lex_le (a b : Z * Z * Z) : Prop :=
  a.1.1 < b.1.1 \/
  (a.1.1 = b.1.1 /\ (a.1.2 < b.1.2 \/ (a.1.2 = b.1.2 /\ a.2 <= b.2))).

(** * Properties *)

(** ** The store *)

Lemma fresh_not_allocated (h : store) : h !! fresh (dom h) = None.
Proof. apply (not_elem_of_dom (D := gset positive)), is_fresh. Qed.

Lemma np_copy_run (h : store) buf arr :
  h !! buf = Some arr ->
  np_copy buf h = (Ok (fresh (dom h)), <[fresh (dom h) := arr]> h).
Proof. intros Hbuf. unfold np_copy, bind, deref, alloc. by rewrite Hbuf. Qed.

Lemma replace_run a kv (h : store) x :
  h !! a = Some x ->
  replace a kv h =
    match replace_array kv x with
    | Ok x' => (Ok tt, <[a := x']> h)
    | Raise e => (Raise e, h)
    end.
Proof.
  intros Ha. destruct kv as [k v].
  unfold replace, replace_array, np_equal, np_isnan, np_setitem.
  unfold bind, deref, lift, ret, assign.
  destruct (isinstance_int k || negb (np.isnan_scalar k)); rewrite Ha.
  - destruct (np.equal x k) as [mask|e]; [|done].
    rewrite Ha. by destruct (np.setitem_mask x mask v).
  - rewrite Ha. by destruct (np.setitem_mask x (np.isnan x) v).
Qed.

Lemma for_each_replace_run rs : forall a (h : store) x,
  h !! a = Some x ->
  for_each rs (replace a) h =
    ((replace_all rs x).1, <[a := (replace_all rs x).2]> h).
Proof.
  induction rs as [|r rs IH]; intros a h x Ha; simpl.
  - unfold ret. by rewrite insert_id.
  - unfold bind. rewrite (replace_run a r h x Ha).
    destruct (replace_array r x) as [x'|e]; simpl.
    + rewrite (IH a (<[a := x']> h) x') by apply lookup_insert_eq.
      by rewrite insert_insert_eq.
    + by rewrite insert_id.
Qed.

Lemma dict_comp_resolve p rules : forall a (h : store) x,
  h !! a = Some x ->
  dict_comp (resolve p a) rules h = (Ok (resolved p x rules), h).
Proof.
  induction rules as [|[k v] rules IH]; intros a h x Ha; simpl; [done|].
  unfold bind at 1.
  assert (resolve p a v h = (Ok (resolve_value p x v), h)) as ->.
  { destruct v; simpl; [done|]. unfold bind, deref, ret. by rewrite Ha. }
  unfold bind. by rewrite (IH a h x Ha).
Qed.

(** One run of [encode]: the working copy is a new array, the special
    values are computed on the contents of the input, and the rules run in
    order on the copy. *)
Lemma encode_run p self buf (h : store) arr :
  h !! buf = Some arr ->
  let a := fresh (dom h) in
  let out := replace_all (resolved p arr (_replacements self)) arr in
  encode p self buf h =
    (match out.1 with Ok _ => Ok a | Raise e => Raise e end, <[a := out.2]> h).
Proof.
  intros Hbuf a out. unfold encode, ensure_ndarray.
  unfold bind at 1. rewrite (np_copy_run h buf arr Hbuf). fold a.
  assert (<[a := arr]> h !! a = Some arr) as Ha by apply lookup_insert_eq.
  unfold bind at 1. rewrite (dict_comp_resolve p _ a _ arr Ha).
  unfold bind. rewrite (for_each_replace_run _ a _ arr Ha). fold out.
  rewrite insert_insert_eq. by destruct (out.1).
Qed.

Lemma encode_invalid p self buf (h : store) :
  h !! buf = None -> encode p self buf h = (Raise InvalidReference, h).
Proof.
  intros Hbuf. unfold encode, ensure_ndarray, np_copy, bind, deref.
  by rewrite Hbuf.
Qed.

(** ** Masks and assignment *)

Lemma equal_length x k mask :
  np.equal x k = Ok mask -> length mask = length (data x).
Proof.
  unfold np.equal. intros H.
  destruct (dtype x), k as [z|kb]; try destruct (pyint_to_double z);
    simplify_eq; by rewrite length_map.
Qed.

Lemma isnan_length x : length (np.isnan x) = length (data x).
Proof. unfold np.isnan. by rewrite length_map. Qed.

Lemma put_mask_length mask b l :
  length mask = length l -> length (np.put_mask mask b l) = length l.
Proof. intros H. unfold np.put_mask. rewrite length_zip_with. lia. Qed.

Lemma put_mask_lookup (mask : list bool) b (l : list Z) (i : nat) (m : bool) e :
  mask !! i = Some m -> l !! i = Some e ->
  np.put_mask mask b l !! i = Some (if m then b else e).
Proof.
  intros Hm He. unfold np.put_mask. rewrite lookup_zip_with, Hm. simpl.
  by rewrite He.
Qed.

Lemma put_mask_map (f : Z -> bool) b l :
  np.put_mask (map f l) b l = map (fun e => if f e then b else e) l.
Proof. unfold np.put_mask. induction l as [|e l IH]; simpl; by f_equal. Qed.

Lemma setitem_mask_inv x mask v x' :
  np.setitem_mask x mask v = Ok x' ->
  exists b, np.cast_scalar (dtype x) v = Ok b /\
            x' = with_data x (np.put_mask mask b (data x)).
Proof.
  unfold np.setitem_mask. destruct (np.cast_scalar (dtype x) v) as [b|e]; [|done].
  intros [= <-]. by exists b.
Qed.

Lemma replace_array_frame kv x x' :
  replace_array kv x = Ok x' ->
  dtype x' = dtype x /\ shape x' = shape x /\ length (data x') = length (data x).
Proof.
  destruct kv as [k v]. unfold replace_array.
  destruct (isinstance_int k || negb (np.isnan_scalar k)).
  - destruct (np.equal x k) as [mask|e] eqn:Hmask; [|done].
    intros (b & _ & ->)%setitem_mask_inv. simpl.
    by rewrite put_mask_length by by apply equal_length in Hmask.
  - intros (b & _ & ->)%setitem_mask_inv. simpl.
    by rewrite put_mask_length by apply isnan_length.
Qed.

Lemma replace_all_frame rs : forall x,
  dtype (replace_all rs x).2 = dtype x /\
  shape (replace_all rs x).2 = shape x /\
  length (data (replace_all rs x).2) = length (data x).
Proof.
  induction rs as [|r rs IH]; intros x; simpl; [done|].
  destruct (replace_array r x) as [x'|e] eqn:Hr; [|done].
  apply replace_array_frame in Hr as (Hd & Hs & Hl).
  destruct (IH x') as (Hd' & Hs' & Hl'). by rewrite Hd', Hs', Hl'.
Qed.

(** ** Names of the special values *)

Lemma Replacement_getitem_name r :
  Replacement_getitem (Replacement_name r) = Ok r.
Proof. by destruct r. Qed.

Lemma Replacement_getitem_ok s r :
  Replacement_getitem s = Ok r -> Replacement_name r = s.
Proof.
  unfold Replacement_getitem.
  destruct (find _ Replacement_members) as [r'|] eqn:Hfind; [|done].
  intros [= ->]. apply find_some in Hfind as [_ Heq].
  by apply String.eqb_eq in Heq.
Qed.

Lemma Replacement_getitem_raise s e :
  Replacement_getitem s = Raise e ->
  e = KeyError s /\ forall r, Replacement_name r <> s.
Proof.
  unfold Replacement_getitem.
  destruct (find _ Replacement_members) as [r'|] eqn:Hfind; [done|].
  intros [= <-]. split; [done|]. intros r.
  apply String.eqb_neq, (find_none _ _ Hfind).
  destruct r; simpl; tauto.
Qed.

Lemma Replacement_str_not_a_name r :
  Replacement_getitem (Replacement_str r) = Raise (KeyError (Replacement_str r)).
Proof. by destruct r. Qed.

(** ** Construction *)

Lemma init_raise replacements e :
  __init__ replacements = Raise e ->
  exists k s, e = KeyError s /\ (k, CStr s) ∈ replacements /\
              forall r, Replacement_name r <> s.
Proof.
  unfold __init__.
  induction replacements as [|[k v] items IH]; simpl; [done|].
  destruct v as [n|r|s]; simpl.
  - destruct (dict_comp_pure _ items) as [d|e'] eqn:Hitems; [done|].
    intros [= <-]. destruct IH as (k' & s & -> & Hin & Hs); [done|].
    exists k', s. split_and!; [done| |done]. apply elem_of_cons; by right.
  - destruct (dict_comp_pure _ items) as [d|e'] eqn:Hitems; [done|].
    intros [= <-]. destruct IH as (k' & s & -> & Hin & Hs); [done|].
    exists k', s. split_and!; [done| |done]. apply elem_of_cons; by right.
  - destruct (Replacement_getitem s) as [r|e'] eqn:Hs.
    + destruct (dict_comp_pure _ items) as [d|e''] eqn:Hitems; [done|].
      intros [= <-]. destruct IH as (k' & s' & -> & Hin & Hs'); [done|].
      exists k', s'. split_and!; [done| |done]. apply elem_of_cons; by right.
    + intros [= <-]. apply Replacement_getitem_raise in Hs as [-> Hs].
      exists k, s. split_and!; [done| |done]. apply elem_of_cons; by left.
Qed.

Lemma init_ok replacements c :
  __init__ replacements = Ok c ->
  Forall2 (fun kv kw => kv.1 = kw.1 /\ normalizes kv.2 kw.2)
          replacements (_replacements c).
Proof.
  unfold __init__.
  destruct (dict_comp_pure _ replacements) as [d|e] eqn:Hd; [|done].
  intros [= <-]. simpl. revert d Hd.
  induction replacements as [|[k v] items IH]; simpl; intros d Hd.
  - injection Hd as <-. constructor.
  - destruct v as [n|r|s]; simpl in Hd.
    + destruct (dict_comp_pure _ items) as [d'|e'] eqn:Hitems; [|done].
      injection Hd as <-. constructor; [done|]. by apply IH.
    + destruct (dict_comp_pure _ items) as [d'|e'] eqn:Hitems; [|done].
      injection Hd as <-. constructor; [done|]. by apply IH.
    + destruct (Replacement_getitem s) as [r|e'] eqn:Hs; [|done].
      destruct (dict_comp_pure _ items) as [d'|e''] eqn:Hitems; [|done].
      injection Hd as <-. constructor; [|by apply IH].
      split; [done|]. exists r. split; [done|]. by apply Replacement_getitem_ok.
Qed.

Lemma init_unknown_name replacements k s :
  (k, CStr s) ∈ replacements -> (forall r, Replacement_name r <> s) ->
  exists s', __init__ replacements = Raise (KeyError s').
Proof.
  intros Hin Hs. destruct (__init__ replacements) as [c|e] eqn:Hinit.
  - apply init_ok in Hinit.
    apply list_elem_of_lookup in Hin as [i Hi].
    destruct (Forall2_lookup_l _ _ _ _ _ Hinit Hi) as ([k' w] & _ & _ & Hn).
    simpl in Hn. destruct Hn as (r & _ & Hr). by destruct (Hs r).
  - apply init_raise in Hinit as (k' & s' & -> & _). by exists s'.
Qed.

(** ** Exceptions of [encode] *)

Lemma pyint_to_double_raise z e :
  pyint_to_double z = Raise e -> e = OverflowError.
Proof. unfold pyint_to_double. destruct (Binary64.of_int z); by intros [= <-]. Qed.

Lemma pyfloat_to_int_raise bits e :
  pyfloat_to_int bits = Raise e -> e = OverflowError \/ e = ValueError.
Proof.
  unfold pyfloat_to_int.
  destruct (Binary64.to_spec bits); simpl; intros [= <-]; auto.
Qed.

Lemma equal_raise x k e : np.equal x k = Raise e -> e = OverflowError.
Proof.
  unfold np.equal. destruct (dtype x), k as [z|kb]; try done.
  destruct (pyint_to_double z) eqn:Hz; [done|].
  intros [= <-]. by apply pyint_to_double_raise in Hz.
Qed.

Lemma cast_scalar_raise dt v e :
  np.cast_scalar dt v = Raise e -> e = OverflowError \/ e = ValueError.
Proof.
  unfold np.cast_scalar. destruct v as [[z|bits]|bits], dt; try done.
  - destruct (Int64.in_range z); [done|]. intros [= <-]. auto.
  - destruct (pyint_to_double z) eqn:Hz; [done|].
    intros [= <-]. apply pyint_to_double_raise in Hz. auto.
  - destruct (pyfloat_to_int bits) as [z|e'] eqn:Hz.
    + destruct (Int64.in_range z); [done|]. intros [= <-]. auto.
    + intros [= <-]. by apply pyfloat_to_int_raise in Hz.
Qed.

Lemma setitem_mask_raise x mask v e :
  np.setitem_mask x mask v = Raise e -> e = OverflowError \/ e = ValueError.
Proof.
  unfold np.setitem_mask.
  destruct (np.cast_scalar (dtype x) v) eqn:Hc; [done|].
  intros [= <-]. by apply cast_scalar_raise in Hc.
Qed.

Lemma replace_array_raise kv x e :
  replace_array kv x = Raise e -> e = OverflowError \/ e = ValueError.
Proof.
  destruct kv as [k v]. unfold replace_array.
  destruct (isinstance_int k || negb (np.isnan_scalar k)).
  - destruct (np.equal x k) as [mask|e'] eqn:Hmask.
    + apply setitem_mask_raise.
    + intros [= <-]. left. by apply equal_raise in Hmask.
  - apply setitem_mask_raise.
Qed.

Lemma replace_all_raise rs : forall x e,
  (replace_all rs x).1 = Raise e -> e = OverflowError \/ e = ValueError.
Proof.
  induction rs as [|r rs IH]; intros x e; simpl; [done|].
  destruct (replace_array r x) as [x'|e'] eqn:Hr; [apply IH|].
  simpl. intros [= <-]. by apply replace_array_raise in Hr.
Qed.

Lemma encode_raise p self buf (h : store) e :
  (encode p self buf h).1 = Raise e ->
  e = OverflowError \/ e = ValueError \/ e = InvalidReference.
Proof.
  destruct (h !! buf) as [arr|] eqn:Hbuf.
  - rewrite (encode_run p self buf h arr Hbuf). simpl.
    destruct (replace_all _ arr).1 eqn:Hout; [done|].
    intros [= <-]. apply replace_all_raise in Hout. tauto.
  - rewrite (encode_invalid p self buf h Hbuf). simpl. intros [= <-]. auto.
Qed.

(** C9: a textual value of the configuration that is not the name of a
    member of [Replacement] makes [__init__] raise [KeyError], so that no
    codec exists on which [encode] or [decode] could be called; when
    [__init__] returns, every textual value has been replaced by the
    member of that name, the other values are kept, and [encode] on the
    codec never raises [KeyError]: no name is looked up after
    construction. *)
Theorem init_validates_names replacements :
  ((exists s, __init__ replacements = Raise (KeyError s)) <->
   (exists k s, (k, CStr s) ∈ replacements /\ forall r, Replacement_name r <> s)) /\
  (forall e, __init__ replacements = Raise e -> exists s, e = KeyError s) /\
  (forall c, __init__ replacements = Ok c ->
     Forall2 (fun kv kw => kv.1 = kw.1 /\ normalizes kv.2 kw.2)
             replacements (_replacements c) /\
     forall p buf (h : store) e s,
       (encode p c buf h).1 = Raise e -> e <> KeyError s).
Proof.
  split_and!.
  - split.
    + intros [s Hinit]. apply init_raise in Hinit as (k & s' & _ & Hin & Hs).
      by exists k, s'.
    + intros (k & s & Hin & Hs). by apply (init_unknown_name _ k s).
  - intros e Hinit. apply init_raise in Hinit as (k & s & -> & _). by exists s.
  - intros c Hinit. split; [by apply init_ok|].
    intros p buf h e s Hraise ->.
    apply encode_raise in Hraise as [|[|]]; done.
Qed.

(** ** Exporting the configuration *)

Lemma get_config_keys self :
  (replacements (get_config self)).*1 = (_replacements self).*1.
Proof.
  unfold get_config. simpl.
  induction (_replacements self) as [|[k v] items IH]; simpl; by f_equal.
Qed.

(** A configuration of plain numbers is rebuilt from what is exported. *)
Lemma get_config_numbers_roundtrip self :
  Forall (fun kv => exists n, kv.2 = RNum n) (_replacements self) ->
  get_codec (get_config self) = Ok self.
Proof.
  destruct self as [items]. unfold get_codec, get_config, __init__. simpl.
  intros Hnum. cut (dict_comp_pure
    (fun v => match v with
              | CStr s => match Replacement_getitem s with
                          | Ok r => Ok (RSpecial r)
                          | Raise e => Raise e
                          end
              | CSpecial r => Ok (RSpecial r)
              | CNum n => Ok (RNum n)
              end)
    (map (fun '(k, v) => (k, match v with
                             | RSpecial r => CStr (Replacement_str r)
                             | RNum n => CNum n
                             end)) items) = Ok items).
  { by intros ->. }
  induction Hnum as [|[k v] items [n Hn] _ IH]; simpl; [done|].
  simpl in Hn. subst v. simpl. by rewrite IH.
Qed.

(** A special value is exported under a text that is not the name of any
    member, and the exported configuration is refused. *)
Lemma get_config_special_refused self k r :
  (k, RSpecial r) ∈ _replacements self ->
  exists s, get_codec (get_config self) = Raise (KeyError s).
Proof.
  intros Hin. unfold get_codec. simpl.
  apply (init_unknown_name _ k (Replacement_str r)).
  - apply list_elem_of_fmap. by exists (k, RSpecial r).
  - intros r' Hname.
    pose proof (Replacement_str_not_a_name r) as Hraise.
    apply Replacement_getitem_raise in Hraise as [_ Hno]. by apply (Hno r').
Qed.

(** C1: the configuration [{0: "finite_mean"}] builds a codec whose
    special value is exported by [get_config] as
    ["Replacement.finite_mean"], the text that [str] gives for a member of
    an enumeration; the keys are exported in their order, but building a
    codec from the exported configuration raises [KeyError], as it does
    for every codec that holds a special value. *)
Theorem get_config_roundtrip_fails :
  __init__ [(PyInt 0, CStr "finite_mean")]
    = Ok (mk_codec [(PyInt 0, RSpecial finite_mean)]) /\
  get_config (mk_codec [(PyInt 0, RSpecial finite_mean)])
    = mk_config "replace.filter" [(PyInt 0, CStr "Replacement.finite_mean")] /\
  get_codec (get_config (mk_codec [(PyInt 0, RSpecial finite_mean)]))
    = Raise (KeyError "Replacement.finite_mean") /\
  (forall self k r, (k, RSpecial r) ∈ _replacements self ->
     (replacements (get_config self)).*1 = (_replacements self).*1 /\
     exists s, get_codec (get_config self) = Raise (KeyError s)).
Proof.
  split_and!; [done..|].
  intros self k r Hin. split; [apply get_config_keys|].
  by apply (get_config_special_refused self k r).
Qed.

(** ** Special values are computed before any replacement *)




(** ** NaN is a class of bit patterns *)

Lemma nan_pattern_fields (s : bool) payload :
  0 <= payload < 0x10000000000000 ->
  let b := Binary64.sign_field s + Binary64.pos_inf + payload in
  Binary64.biased_exponent b = 0x7FF /\ Binary64.fraction b = payload.
Proof.
  intros Hp b. unfold Binary64.biased_exponent, Binary64.fraction.
  change 0x7FF with (Z.ones 11). change 0xFFFFFFFFFFFFF with (Z.ones 52).
  rewrite !Z.land_ones, Z.shiftr_div_pow2 by lia.
  change (2 ^ 52) with 0x10000000000000.
  assert (b = payload + ((if s then 2048 else 0) + 2047) * 0x10000000000000) as ->.
  { subst b. unfold Binary64.sign_field, Binary64.pos_inf. destruct s; lia. }
  rewrite Z.div_add, Z.mod_add by lia.
  rewrite Z.div_small, (Z.mod_small payload) by lia.
  split; [|reflexivity]. by destruct s.
Qed.

Lemma to_spec_nan_iff b :
  Binary64.is_nan (Binary64.to_spec b) = true <->
  Binary64.biased_exponent b = 0x7FF /\ Binary64.fraction b <> 0.
Proof.
  unfold Binary64.to_spec.
  destruct (Z.eqb_spec (Binary64.biased_exponent b) 0) as [He0|He0].
  { rewrite He0. split; [by destruct (Binary64.fraction b)|]. by intros [? _]. }
  destruct (Z.eqb_spec (Binary64.biased_exponent b) 0x7FF) as [He|He].
  - destruct (Z.eqb_spec (Binary64.fraction b) 0) as [Hm|Hm]; simpl.
    + split; [done|]. by intros [_ ?].
    + by split.
  - simpl. split; [done|]. by intros [? _].
Qed.

(** Whatever the sign bit and whatever the fraction bits, quiet bit
    included, as long as they are not all zero. *)
Lemma nan_pattern_isnan (s : bool) payload :
  0 < payload < 0x10000000000000 ->
  np.isnan_elem float64 (Binary64.sign_field s + Binary64.pos_inf + payload) = true.
Proof.
  intros Hp. unfold np.isnan_elem. apply to_spec_nan_iff.
  destruct (nan_pattern_fields s payload) as [He Hm]; [lia|].
  rewrite He, Hm. split; [reflexivity|lia].
Qed.

Lemma eqb_nan_l f : Binary64.eqb S754_nan f = false.
Proof. done. Qed.

Lemma isnan_elem_not_equal x k mask (i : nat) e :
  np.equal x k = Ok mask -> data x !! i = Some e ->
  np.isnan_elem (dtype x) e = true -> mask !! i = Some false.
Proof.
  unfold np.equal, np.isnan_elem. intros Hmask He Hnan.
  destruct (dtype x), k as [z|kb]; try discriminate Hnan.
  - destruct (pyint_to_double z) as [f|]; [|discriminate Hmask].
    injection Hmask as <-. rewrite list_lookup_fmap, He.
    change (Some (Binary64.eqb (Binary64.to_spec e) f) = Some false).
    destruct (Binary64.to_spec e); try discriminate Hnan. reflexivity.
  - injection Hmask as <-. rewrite list_lookup_fmap, He.
    change (Some (Binary64.eqb (Binary64.to_spec e) (Binary64.to_spec kb)) = Some false).
    destruct (Binary64.to_spec e); try discriminate Hnan. reflexivity.
Qed.

(** ** One replacement *)

Lemma replace_array_nan_key k v x b :
  isinstance_int k = false -> np.isnan_scalar k = true ->
  np.cast_scalar (dtype x) v = Ok b ->
  replace_array (k, v) x =
    Ok (with_data x (map (fun e => if np.isnan_elem (dtype x) e then b else e) (data x))).
Proof.
  intros Hint Hnan Hcast. unfold replace_array, np.setitem_mask.
  rewrite Hint, Hnan, Hcast. simpl. unfold np.isnan. by rewrite put_mask_map.
Qed.

Lemma replace_array_other_key k v x b mask :
  isinstance_int k || negb (np.isnan_scalar k) = true ->
  np.equal x k = Ok mask ->
  np.cast_scalar (dtype x) v = Ok b ->
  replace_array (k, v) x = Ok (with_data x (np.put_mask mask b (data x))).
Proof.
  intros Hkey Hmask Hcast. unfold replace_array, np.setitem_mask.
  by rewrite Hkey, Hmask, Hcast.
Qed.

(** C3: in one step of the loop of [encode], a NaN key overwrites the
    elements that are NaN, and only them: an element is NaN when its
    exponent bits are all ones and its fraction bits are not all zero,
    whatever its sign bit, its quiet bit and its payload.  Any other key
    overwrites the elements that compare equal to it, and only them: by
    the comparison of doubles for a float key on a float array, by the
    comparison of integers for an integer key on an integer array.  On
    [[inf, -inf, nan, -nan, 0.0, -0.0]] with
    [{inf: finite_max, -inf: finite_min, nan: nan_mean}], [encode] gives
    the three special values of the input in the places of [inf], [-inf]
    and the two NaNs and leaves the zeros. *)
Theorem replace_matches_by_value a k v (h : store) x b :
  h !! a = Some x ->
  np.cast_scalar (dtype x) v = Ok b ->
  (isinstance_int k = false -> np.isnan_scalar k = true ->
     replace a (k, v) h =
       (Ok tt, <[a := with_data x
                    (map (fun e => if np.isnan_elem (dtype x) e then b else e)
                         (data x))]> h)) /\
  (forall e, np.isnan_elem float64 e = true <->
     Binary64.biased_exponent e = 0x7FF /\ Binary64.fraction e <> 0) /\
  (forall (s : bool) payload, 0 < payload < 0x10000000000000 ->
     np.isnan_elem float64 (Binary64.sign_field s + Binary64.pos_inf + payload) = true) /\
  (isinstance_int k || negb (np.isnan_scalar k) = true ->
     forall mask, np.equal x k = Ok mask ->
       replace a (k, v) h =
         (Ok tt, <[a := with_data x (np.put_mask mask b (data x))]> h) /\
       (forall (i : nat) e, data x !! i = Some e ->
          exists m : bool, mask !! i = Some m /\
            np.put_mask mask b (data x) !! i = Some (if m then b else e)) /\
       (forall kb, dtype x = float64 -> k = PyFloat kb ->
          mask = map (fun e => Binary64.eqb (Binary64.to_spec e) (Binary64.to_spec kb))
                     (data x)) /\
       (forall z, dtype x = int64 -> k = PyInt z ->
          mask = map (fun e => Int64.signed e =? z) (data x))) /\
  (forall p,
     encode p nonfinite_codec 1%positive (store_of nonfinite_array) =
       (Ok 2%positive,
        <[2%positive :=
            mk_ndarray float64 [6%nat]
              [compute p finite_max nonfinite_array;
               compute p finite_min nonfinite_array;
               compute p nan_mean nonfinite_array;
               compute p nan_mean nonfinite_array;
               Binary64.pos_zero; Binary64.neg_zero]]>
          (store_of nonfinite_array))).
Proof.
  intros Ha Hcast. split_and!.
  - intros Hint Hnan. rewrite (replace_run a _ h x Ha).
    by rewrite (replace_array_nan_key k v x b Hint Hnan Hcast).
  - intros e. apply to_spec_nan_iff.
  - apply nan_pattern_isnan.
  - intros Hkey mask Hmask. split_and!.
    + rewrite (replace_run a _ h x Ha).
      by rewrite (replace_array_other_key k v x b mask Hkey Hmask Hcast).
    + intros i e He.
      destruct (lookup_lt_is_Some_2 mask i) as [m Hm].
      { rewrite (equal_length x k mask Hmask). by apply lookup_lt_Some in He. }
      exists m. split; [done|]. by apply put_mask_lookup.
    + intros kb Hdt ->. unfold np.equal in Hmask. rewrite Hdt in Hmask.
      by injection Hmask as <-.
    + intros z Hdt ->. unfold np.equal in Hmask. rewrite Hdt in Hmask.
      by injection Hmask as <-.
  - intros p.
    assert (store_of nonfinite_array !! 1%positive = Some nonfinite_array)
      as Hbuf by reflexivity.
    rewrite (encode_run p nonfinite_codec 1%positive _ nonfinite_array Hbuf).
    destruct p; reflexivity.
Qed.

Lemma replace_matches_by_value_witness :
  store_of nonfinite_array !! 1%positive = Some nonfinite_array /\
  np.cast_scalar (dtype nonfinite_array) (Number Binary64.pos_zero)
    = Ok Binary64.pos_zero /\
  replace 1%positive (PyFloat Binary64.neg_nan, Number Binary64.pos_zero)
          (store_of nonfinite_array) =
    (Ok tt, <[1%positive :=
                mk_ndarray float64 [6%nat]
                  [Binary64.pos_inf; Binary64.neg_inf; Binary64.pos_zero;
                   Binary64.pos_zero; Binary64.pos_zero; Binary64.neg_zero]]>
              (store_of nonfinite_array)).
Proof.
  split; [reflexivity|]. split; [reflexivity|].
  apply (replace_matches_by_value 1%positive (PyFloat Binary64.neg_nan)
           (Number Binary64.pos_zero) (store_of nonfinite_array)
           nonfinite_array Binary64.pos_zero);
    reflexivity.
Defined.

(** ** Rules apply one after the other *)



(** ** Special values of an empty array *)

Lemma finfo_max_is_largest :
  Binary64.to_spec Binary64.finfo_max = SFmax_float Binary64.prec Binary64.emax /\
  Binary64.to_spec Binary64.finfo_min
    = SFopp (SFmax_float Binary64.prec Binary64.emax).
Proof. split; reflexivity. Qed.

Lemma iinfo_bounds :
  Int64.signed (np.info_max int64) = 2 ^ 63 - 1 /\
  Int64.signed (np.info_min int64) = - 2 ^ 63.
Proof. split; reflexivity. Qed.

(** C5, as the code has it: on an array without elements [finite_min] is
    [info.max], [finite_max] is [info.min], [nan_min] is [inf] for doubles
    and [info.max] for integers, [nan_max] is [-inf] for doubles and
    [info.min] for integers, and for doubles [finite_mean] and [nan_mean]
    are NaN.  Nothing is said of the two means of an empty array of
    integers. *)
Theorem compute_empty p sh :
  (forall dt,
     compute p finite_min (mk_ndarray dt sh []) = np.info_max dt /\
     compute p finite_max (mk_ndarray dt sh []) = np.info_min dt) /\
  compute p nan_min (mk_ndarray float64 sh []) = Binary64.pos_inf /\
  compute p nan_max (mk_ndarray float64 sh []) = Binary64.neg_inf /\
  compute p nan_min (mk_ndarray int64 sh []) = np.info_max int64 /\
  compute p nan_max (mk_ndarray int64 sh []) = np.info_min int64 /\
  np.isnan_elem float64 (compute p finite_mean (mk_ndarray float64 sh [])) = true /\
  np.isnan_elem float64 (compute p nan_mean (mk_ndarray float64 sh [])) = true /\
  Binary64.to_spec (np.info_max float64) = SFmax_float Binary64.prec Binary64.emax /\
  Binary64.to_spec (np.info_min float64)
    = SFopp (SFmax_float Binary64.prec Binary64.emax) /\
  Int64.signed (np.info_max int64) = 2 ^ 63 - 1 /\
  Int64.signed (np.info_min int64) = - 2 ^ 63.
Proof.
  split_and!; try reflexivity.
  - intros dt. split; reflexivity.
  - destruct p; reflexivity.
  - destruct p; reflexivity.
Qed.

(** C5 as stated fails on integers: the mean of an empty array of
    integers is the NaN of [np.mean] cast to the integer type, which is an
    integer. *)
Lemma compute_empty_int_mean_not_nan :
  np.isnan_elem (dtype empty_int64) (compute x86_64 finite_mean empty_int64) = false /\
  np.isnan_elem (dtype empty_int64) (compute x86_64 nan_mean empty_int64) = false /\
  Int64.signed (compute x86_64 finite_mean empty_int64) = - 2 ^ 63 /\
  Int64.signed (compute x86_64 nan_mean empty_int64) = - 2 ^ 63.
Proof. split_and!; reflexivity. Qed.

(** ** When [encode] returns *)

Lemma replace_array_ok k v x :
  is_ok (replace_array (k, v) x)
    = key_converts (dtype x) k && is_ok (np.cast_scalar (dtype x) v).
Proof.
  unfold replace_array, np.setitem_mask, np.equal, key_converts.
  destruct k as [z|kb].
  - change (isinstance_int (PyInt z) || negb (np.isnan_scalar (PyInt z))) with true.
    cbv iota. destruct (dtype x); cbv iota.
    + destruct (np.cast_scalar int64 v); reflexivity.
    + destruct (pyint_to_double z); [|reflexivity].
      destruct (np.cast_scalar float64 v); reflexivity.
  - change (isinstance_int (PyFloat kb) || negb (np.isnan_scalar (PyFloat kb)))
      with (negb (Binary64.is_nan (Binary64.to_spec kb))).
    destruct (negb (Binary64.is_nan (Binary64.to_spec kb)));
      destruct (dtype x); cbv iota;
      destruct (np.cast_scalar _ v); reflexivity.
Qed.

Lemma replace_all_ok rs : forall x,
  is_ok (replace_all rs x).1
    = forallb (fun kv => key_converts (dtype x) kv.1
                         && is_ok (np.cast_scalar (dtype x) kv.2)) rs.
Proof.
  induction rs as [|[k v] rs IH]; intros x; [reflexivity|].
  cbn [replace_all forallb fst snd].
  rewrite <- (replace_array_ok k v x).
  destruct (replace_array (k, v) x) as [x'|e] eqn:Hr; [|reflexivity].
  apply replace_array_frame in Hr as (Hd & _ & _).
  rewrite IH, Hd. reflexivity.
Qed.

Lemma resolved_accepted p x dt rules :
  forallb (fun kv => key_converts dt kv.1 && is_ok (np.cast_scalar dt kv.2))
          (resolved p x rules)
    = forallb (rule_accepted dt) rules.
Proof.
  unfold resolved. induction rules as [|[k v] rules IH]; [reflexivity|].
  cbn [map forallb fst snd]. rewrite IH. f_equal.
  unfold rule_accepted. cbn [fst snd]. destruct v; reflexivity.
Qed.

(** C6: whenever [encode] returns, it returns an array with the element
    type, the shape and the number of elements of its input; and it
    returns exactly when every key and every number of the configuration
    can be converted to the element type of the input. *)
Theorem encode_preserves_shape_dtype p self buf (h : store) arr :
  h !! buf = Some arr ->
  (forall a h', encode p self buf h = (Ok a, h') ->
     exists enc, h' !! a = Some enc /\
       dtype enc = dtype arr /\ shape enc = shape arr /\
       length (data enc) = length (data arr)) /\
  ((exists a h', encode p self buf h = (Ok a, h')) <->
   forallb (rule_accepted (dtype arr)) (_replacements self) = true).
Proof.
  intros Hbuf. rewrite (encode_run p self buf h arr Hbuf).
  set (out := replace_all (resolved p arr (_replacements self)) arr).
  pose proof (replace_all_frame (resolved p arr (_replacements self)) arr)
    as (Hd & Hs & Hl). fold out in Hd, Hs, Hl.
  pose proof (replace_all_ok (resolved p arr (_replacements self)) arr) as Hok.
  fold out in Hok. rewrite resolved_accepted in Hok.
  split.
  - intros a h'. simpl. destruct (out.1); [|done]. intros [= <- <-].
    exists (out.2). split; [apply lookup_insert_eq|done].
  - rewrite <- Hok. simpl. split.
    + intros (a & h' & Heq). by destruct (out.1).
    + destruct (out.1); [|done]. intros _. by eexists _, _.
Qed.

Lemma encode_preserves_shape_dtype_witness :
  store_of int_24 !! 1%positive = Some int_24 /\
  exists a h', encode x86_64 chain_codec 1%positive (store_of int_24) = (Ok a, h').
Proof.
  split; [reflexivity|].
  apply (encode_preserves_shape_dtype x86_64 chain_codec 1%positive
           (store_of int_24) int_24); reflexivity.
Defined.

(** ** [decode] *)

Lemma ndarray_copy_into src d (h : store) s t :
  h !! src = Some s -> h !! d = Some t ->
  length (data s) = length (data t) ->
  ndarray_copy src (Some d) h = (Ok d, <[d := with_data t (data s)]> h).
Proof.
  intros Hs Ht Hlen. unfold ndarray_copy, ensure_ndarray, bind, deref, assign, ret.
  rewrite Hs, Ht, Hlen. by rewrite Nat.eqb_refl.
Qed.

(** C7: [decode] of what [encode] returned gives the same array back when
    no output buffer is passed, and touches nothing; with an output buffer
    of the same number of elements it stores in it the very bit patterns of
    the encoded array and returns it.  It does not read the configuration
    and does not bring back the input: the input and the encoded array are
    in the store afterwards as [encode] left them. *)
Theorem decode_is_copy p self buf (h : store) arr a h' :
  h !! buf = Some arr ->
  encode p self buf h = (Ok a, h') ->
  exists enc, h' !! a = Some enc /\
    decode self a None h' = (Ok a, h') /\
    (forall out t, h' !! out = Some t ->
       length (data t) = length (data enc) ->
       decode self a (Some out) h'
         = (Ok out, <[out := with_data t (data enc)]> h') /\
       data <$> (decode self a (Some out) h').2 !! out = Some (data enc)) /\
    (forall self' out, decode self' a out h' = decode self a out h') /\
    h' !! buf = Some arr.
Proof.
  intros Hbuf Henc.
  assert (exists enc, h' !! a = Some enc) as [enc Ha].
  { rewrite (encode_run p self buf h arr Hbuf) in Henc.
    destruct (replace_all _ arr).1; [|done]. injection Henc as <- <-.
    eexists. apply lookup_insert_eq. }
  exists enc. split_and!; [done|done| |done|].
  - intros out t Hout Hlen. unfold decode.
    rewrite (ndarray_copy_into a out h' enc t Ha Hout) by done.
    split; [done|]. simpl. by rewrite lookup_insert_eq.
  - rewrite (encode_run p self buf h arr Hbuf) in Henc.
    injection Henc as _ <-.
    rewrite lookup_insert_ne; [done|].
    intros Heq. pose proof (fresh_not_allocated h) as Hfresh.
    rewrite Heq in Hfresh. congruence.
Qed.

Lemma decode_is_copy_witness :
  store_of int_24 !! 1%positive = Some int_24 /\
  encode x86_64 chain_codec 1%positive (store_of int_24)
    = (Ok 2%positive, <[2%positive := mk_ndarray int64 [1%nat] [0]]> (store_of int_24)) /\
  exists enc,
    (<[2%positive := mk_ndarray int64 [1%nat] [0]]> (store_of int_24)) !! 2%positive
      = Some enc /\
    decode chain_codec 2%positive None
           (<[2%positive := mk_ndarray int64 [1%nat] [0]]> (store_of int_24))
      = (Ok 2%positive, <[2%positive := mk_ndarray int64 [1%nat] [0]]> (store_of int_24)).
Proof.
  split; [reflexivity|]. split; [reflexivity|].
  destruct (decode_is_copy x86_64 chain_codec 1%positive (store_of int_24) int_24
              2%positive (<[2%positive := mk_ndarray int64 [1%nat] [0]]> (store_of int_24)))
    as (enc & Ha & Hdec & _); [reflexivity|reflexivity|].
  exists enc. split; [exact Ha|exact Hdec].
Defined.

(** ** The input of [encode] *)

(** C8: [encode] writes to no array that was in the store when it was
    called, the input among them, whether it returns or raises; the array
    it returns is a new one. *)
Theorem encode_keeps_input p self buf (h : store) l :
  is_Some (h !! l) ->
  (encode p self buf h).2 !! l = h !! l /\
  (forall a, (encode p self buf h).1 = Ok a -> a <> l /\ h !! a = None).
Proof.
  intros [y Hl]. destruct (h !! buf) as [arr|] eqn:Hbuf.
  - rewrite (encode_run p self buf h arr Hbuf). simpl.
    pose proof (fresh_not_allocated h) as Hfresh.
    assert (fresh (dom h) <> l) as Hne.
    { intros Heq. rewrite Heq in Hfresh. congruence. }
    split; [by rewrite lookup_insert_ne|].
    intros a Ha. destruct (replace_all _ arr).1; [|done].
    injection Ha as <-. done.
  - rewrite (encode_invalid p self buf h Hbuf). simpl. split; [done|]. done.
Qed.

Lemma encode_keeps_input_witness :
  is_Some (store_of nonfinite_array !! 1%positive) /\
  (encode x86_64 nonfinite_codec 1%positive (store_of nonfinite_array)).2 !! 1%positive
    = store_of nonfinite_array !! 1%positive.
Proof.
  split; [by eexists|].
  apply (encode_keeps_input x86_64 nonfinite_codec 1%positive
           (store_of nonfinite_array) 1%positive).
  by eexists.
Defined.

(** ** NaN elements and keys that are not NaN *)

Lemma replace_array_keeps_nan k v x x' (i : nat) e :
  compares_equal k = true ->
  data x !! i = Some e -> np.isnan_elem (dtype x) e = true ->
  replace_array (k, v) x = Ok x' -> data x' !! i = Some e.
Proof.
  unfold compares_equal, replace_array. intros -> He Hnan.
  destruct (np.equal x k) as [mask|] eqn:Hmask; [|done].
  intros (b & _ & ->)%setitem_mask_inv. cbn [data with_data].
  pose proof (isnan_elem_not_equal x k mask i e Hmask He Hnan) as Hm.
  by rewrite (put_mask_lookup mask b (data x) i false e Hm He).
Qed.

Lemma replace_all_keeps_nan rs : forall x (i : nat) e,
  Forall (fun kv => compares_equal kv.1 = true) rs ->
  data x !! i = Some e -> np.isnan_elem (dtype x) e = true ->
  data (replace_all rs x).2 !! i = Some e.
Proof.
  induction rs as [|[k v] rs IH]; intros x i e Hrs He Hnan; [done|].
  apply Forall_cons in Hrs as [Hk Hrs]. cbn [replace_all].
  destruct (replace_array (k, v) x) as [x'|err] eqn:Hr; [|done].
  apply IH; [done| |].
  - by apply (replace_array_keeps_nan k v x x' i e).
  - apply replace_array_frame in Hr as (Hd & _ & _). by rewrite Hd.
Qed.

(** C10: a step of the loop of [encode] whose key is an integer or a
    float that is not NaN leaves every NaN element of the working copy
    with its bit pattern, whether the step returns or raises; so a step
    that changes a NaN element has a NaN key, and a configuration with no
    NaN key leaves every NaN element of the input as it is in what
    [encode] produces. *)
Theorem nan_only_replaced_by_nan_key a k v (h : store) x (i : nat) e :
  h !! a = Some x ->
  data x !! i = Some e ->
  np.isnan_elem (dtype x) e = true ->
  (isinstance_int k || negb (np.isnan_scalar k) = true ->
     exists x', (replace a (k, v) h).2 !! a = Some x' /\ data x' !! i = Some e) /\
  (forall x', (replace a (k, v) h).2 !! a = Some x' -> data x' !! i <> Some e ->
     isinstance_int k = false /\ np.isnan_scalar k = true) /\
  (forall p self,
     Forall (fun kv => isinstance_int kv.1 || negb (np.isnan_scalar kv.1) = true)
            (_replacements self) ->
     exists enc, (encode p self a h).2 !! fresh (dom h) = Some enc /\
                 data enc !! i = Some e).
Proof.
  intros Ha He Hnan.
  assert (isinstance_int k || negb (np.isnan_scalar k) = true ->
          exists x', (replace a (k, v) h).2 !! a = Some x' /\ data x' !! i = Some e)
    as Hkeep.
  { intros Hk. rewrite (replace_run a _ h x Ha).
    destruct (replace_array (k, v) x) as [x'|err] eqn:Hr; cbn [snd].
    - exists x'. split; [apply lookup_insert_eq|].
      by apply (replace_array_keeps_nan k v x x' i e).
    - by exists x. }
  split_and!.
  - exact Hkeep.
  - intros x' Hx' Hchanged.
    destruct (isinstance_int k || negb (np.isnan_scalar k)) eqn:Hk.
    + destruct Hkeep as (y & Hy & Hyi); [done|]. congruence.
    + apply orb_false_iff in Hk as [Hint Hnot].
      split; [done|]. by apply negb_false_iff.
  - intros p self Hkeys. rewrite (encode_run p self a h x Ha). cbn [snd].
    eexists. split; [apply lookup_insert_eq|].
    apply replace_all_keeps_nan; [|done..].
    unfold resolved. apply Forall_fmap.
    apply (Forall_impl _ _ _ Hkeys). by intros [k' v'].
Qed.

Lemma nan_only_replaced_by_nan_key_witness :
  store_of nonfinite_array !! 1%positive = Some nonfinite_array /\
  data nonfinite_array !! 3%nat = Some Binary64.neg_nan /\
  np.isnan_elem (dtype nonfinite_array) Binary64.neg_nan = true /\
  (isinstance_int (PyFloat Binary64.pos_inf)
     || negb (np.isnan_scalar (PyFloat Binary64.pos_inf)) = true ->
   exists x',
     (replace 1%positive (PyFloat Binary64.pos_inf, Number Binary64.pos_zero)
              (store_of nonfinite_array)).2 !! 1%positive = Some x' /\
     data x' !! 3%nat = Some Binary64.neg_nan).
Proof.
  split; [reflexivity|]. split; [reflexivity|]. split; [reflexivity|].
  apply (nan_only_replaced_by_nan_key 1%positive (PyFloat Binary64.pos_inf)
           (Number Binary64.pos_zero) (store_of nonfinite_array)
           nonfinite_array 3%nat Binary64.neg_nan); reflexivity.
Defined.


(** * Further properties of the code *)

(** ** [__init__] *)

Lemma Replacement_getitem_unknown s :
  (forall r, Replacement_name r <> s) ->
  Replacement_getitem s = Raise (KeyError s).
Proof.
  intros Hs. destruct (Replacement_getitem s) as [r|e] eqn:Hget.
  - apply Replacement_getitem_ok in Hget. by destruct (Hs r).
  - by apply Replacement_getitem_raise in Hget as [-> _].
Qed.

(** Every state of the codec can be built: with each special value given
    by the name of its member, or given as the member, [__init__] returns
    the codec that holds exactly these rules, in their order. *)
Theorem init_names_and_members rules :
  __init__ (map by_name rules) = Ok (mk_codec rules) /\
  __init__ (map by_member rules) = Ok (mk_codec rules).
Proof.
  unfold __init__.
  match goal with |- context [dict_comp_pure ?f _] => set (norm := f) end.
  assert (dict_comp_pure norm (map by_name rules) = Ok rules) as ->.
  { induction rules as [|[k v] rules IH]; [reflexivity|].
    cbn [map dict_comp_pure by_name fst snd]. rewrite IH.
    destruct v as [n|r]; [reflexivity|].
    unfold norm. by rewrite Replacement_getitem_name. }
  assert (dict_comp_pure norm (map by_member rules) = Ok rules) as ->.
  { induction rules as [|[k v] rules IH]; [reflexivity|].
    cbn [map dict_comp_pure by_member fst snd]. rewrite IH.
    by destruct v. }
  done.
Qed.

(** [__init__] raises for the first textual value, in the order of the
    configuration, that is not the name of a member, with that text in the
    [KeyError]; what comes after it is not looked at. *)
Theorem init_first_unknown_name pre k s post :
  Forall (fun kv => forall t, kv.2 = CStr t -> exists r, Replacement_name r = t) pre ->
  (forall r, Replacement_name r <> s) ->
  __init__ (pre ++ (k, CStr s) :: post) = Raise (KeyError s).
Proof.
  intros Hpre Hs. unfold __init__.
  match goal with |- context [dict_comp_pure ?f _] => set (norm := f) end.
  assert (dict_comp_pure norm (pre ++ (k, CStr s) :: post) = Raise (KeyError s)) as ->;
    [|done].
  induction Hpre as [|[k0 v0] pre Hv0 _ IH].
  - cbn [app dict_comp_pure]. unfold norm.
    by rewrite (Replacement_getitem_unknown s Hs).
  - cbn [app dict_comp_pure]. rewrite IH.
    destruct v0 as [n|r|t]; [done..|].
    destruct (Hv0 t eq_refl) as [r <-].
    unfold norm. by rewrite Replacement_getitem_name.
Qed.

Lemma init_first_unknown_name_witness :
  Forall (fun kv : pynum * config_value =>
            forall t, kv.2 = CStr t -> exists r, Replacement_name r = t)
         [(PyInt 0, CStr "nan_mean")] /\
  __init__ ([(PyInt 0, CStr "nan_mean")] ++ (PyInt 1, CStr "mean")
              :: [(PyInt 2, CStr "median")])
    = Raise (KeyError "mean").
Proof.
  assert (Forall (fun kv : pynum * config_value =>
                    forall t, kv.2 = CStr t -> exists r, Replacement_name r = t)
                 [(PyInt 0, CStr "nan_mean")]) as Hpre.
  { constructor; [|constructor]. intros t [= <-]. by exists nan_mean. }
  split; [exact Hpre|].
  apply (init_first_unknown_name [(PyInt 0, CStr "nan_mean")] (PyInt 1) "mean"
           [(PyInt 2, CStr "median")] Hpre).
  intros r. destruct r; discriminate.
Defined.

(** ** [get_config] *)

(** A codec that holds only numbers is rebuilt by [get_codec] from what
    [get_config] exports. *)
Theorem get_config_roundtrip_numbers self :
  Forall (fun kv => exists n, kv.2 = RNum n) (_replacements self) ->
  get_codec (get_config self) = Ok self.
Proof. apply get_config_numbers_roundtrip. Qed.

Lemma get_config_roundtrip_numbers_witness :
  Forall (fun kv : pynum * replacement_value => exists n, kv.2 = RNum n)
         (_replacements chain_codec) /\
  get_codec (get_config chain_codec) = Ok chain_codec.
Proof.
  assert (Forall (fun kv : pynum * replacement_value => exists n, kv.2 = RNum n)
                 (_replacements chain_codec)) as Hnum.
  { repeat constructor; by eexists. }
  split; [exact Hnum|]. exact (get_config_roundtrip_numbers chain_codec Hnum).
Defined.

(** ** [Replacement.compute]: the four extrema *)

Lemma select_map_filter (P : Z -> bool) l :
  np.select (map P l) l = filter (fun e => P e = true) l.
Proof.
  induction l as [|e l IH]; [reflexivity|].
  cbn [map np.select]. rewrite filter_cons, IH.
  destruct (P e); [by rewrite decide_True|by rewrite decide_False].
Qed.

Lemma select_all (l : list Z) : np.select (map (fun _ => true) l) l = l.
Proof. induction l as [|e l IH]; [reflexivity|]. cbn [map np.select]. by rewrite IH. Qed.

Lemma select_none (P : Z -> bool) l :
  Forall (fun e => P e = false) l -> np.select (map P l) l = [].
Proof.
  induction 1 as [|e l He _ IH]; [reflexivity|].
  cbn [map np.select]. by rewrite He.
Qed.

(** A reduction that keeps the accumulator or takes the element ends on
    the initial value or on an element it took. *)
Lemma fold_left_choice (f : Z -> Z -> Z) (take : Z -> Z -> bool) (l : list Z) :
  (forall io1 in2, f io1 in2 = if take io1 in2 then in2 else io1) ->
  forall init,
    fold_left f l init = init \/
    exists io1 e, e ∈ l /\ take io1 e = true /\ fold_left f l init = e.
Proof.
  intros Hf. induction l as [|e l IH]; intros init; [by left|].
  cbn [fold_left].
  destruct (IH (f init e)) as [Heq|(io1 & e' & Hin & Htake & Heq)].
  - rewrite Heq, Hf. destruct (take init e) eqn:Htake; [|by left].
    right. exists init, e. split_and!; [apply elem_of_cons; by left|done|done].
  - right. exists io1, e'. split_and!; [apply elem_of_cons; by right|done|done].
Qed.

Lemma minimum_choice dt io1 in2 :
  np.minimum dt io1 in2 =
    if negb (np.le dt io1 in2 || np.isnan_elem dt io1) then in2 else io1.
Proof. unfold np.minimum. by destruct (_ || _). Qed.

Lemma maximum_choice dt io1 in2 :
  np.maximum dt io1 in2 =
    if negb (np.le dt in2 io1 || np.isnan_elem dt io1) then in2 else io1.
Proof. unfold np.maximum. by destruct (_ || _). Qed.

Lemma fmin_choice dt io1 in2 :
  np.fmin dt io1 in2 =
    if negb (np.le dt io1 in2 || np.isnan_elem dt in2) then in2 else io1.
Proof. unfold np.fmin. by destruct (_ || _). Qed.

Lemma fmax_choice dt io1 in2 :
  np.fmax dt io1 in2 =
    if negb (np.le dt in2 io1 || np.isnan_elem dt in2) then in2 else io1.
Proof. unfold np.fmax. by destruct (_ || _). Qed.

Lemma info_finite dt :
  np.isfinite_elem dt (np.info_max dt) = true /\
  np.isfinite_elem dt (np.info_min dt) = true.
Proof. by destruct dt. Qed.

(** [finite_min] and [finite_max] are [info.max] and [info.min], or an
    element of the array that [np.isfinite] accepts; either way the
    result is finite, never NaN and never an infinity. *)
Theorem compute_finite_extrema p x :
  (compute p finite_min x = np.info_max (dtype x) \/
   compute p finite_min x ∈ data x) /\
  (compute p finite_max x = np.info_min (dtype x) \/
   compute p finite_max x ∈ data x) /\
  np.isfinite_elem (dtype x) (compute p finite_min x) = true /\
  np.isfinite_elem (dtype x) (compute p finite_max x) = true.
Proof.
  assert (forall (f : Z -> Z -> Z) (take : Z -> Z -> bool) init,
    (forall io1 in2, f io1 in2 = if take io1 in2 then in2 else io1) ->
    np.isfinite_elem (dtype x) init = true ->
    let r := fold_left f (np.select (np.isfinite x) (data x)) init in
    (r = init \/ r ∈ data x) /\ np.isfinite_elem (dtype x) r = true) as Hfold.
  { intros f take init Hf Hinit r. unfold np.isfinite in r.
    destruct (fold_left_choice f take (np.select (map (np.isfinite_elem (dtype x))
                (data x)) (data x)) Hf init) as [Heq|(io1 & e & Hin & _ & Heq)];
      fold r in Heq; rewrite Heq.
    - split; [by left|done].
    - rewrite select_map_filter in Hin. apply list_elem_of_filter in Hin as [He Hin].
      split; [by right|done]. }
  destruct (info_finite (dtype x)) as [Hmax Hmin].
  destruct (Hfold _ _ _ (minimum_choice (dtype x)) Hmax) as [? ?].
  destruct (Hfold _ _ _ (maximum_choice (dtype x)) Hmin) as [? ?].
  done.
Qed.

(** [nan_min] and [nan_max] are the initial value of the reduction
    ([inf] and [-inf] for doubles, [info.max] and [info.min] for
    integers), or an element of the array that is not NaN; the result is
    never NaN. *)
Theorem compute_nan_extrema p x :
  let lowest := if np.issubdtype_floating (dtype x)
                then Binary64.neg_inf else np.info_min (dtype x) in
  let highest := if np.issubdtype_floating (dtype x)
                 then Binary64.pos_inf else np.info_max (dtype x) in
  (compute p nan_min x = highest \/ compute p nan_min x ∈ data x) /\
  (compute p nan_max x = lowest \/ compute p nan_max x ∈ data x) /\
  np.isnan_elem (dtype x) (compute p nan_min x) = false /\
  np.isnan_elem (dtype x) (compute p nan_max x) = false.
Proof.
  intros lowest highest.
  assert (forall (f : Z -> Z -> Z) (take : Z -> Z -> bool) init,
    (forall io1 in2, f io1 in2 = if take io1 in2 then in2 else io1) ->
    (forall io1 in2, take io1 in2 = true -> np.isnan_elem (dtype x) in2 = false) ->
    np.isnan_elem (dtype x) init = false ->
    let r := fold_left f (data x) init in
    (r = init \/ r ∈ data x) /\ np.isnan_elem (dtype x) r = false) as Hfold.
  { intros f take init Hf Htake Hinit r.
    destruct (fold_left_choice f take (data x) Hf init)
      as [Heq|(io1 & e & Hin & Ht & Heq)]; fold r in Heq; rewrite Heq.
    - split; [by left|done].
    - split; [by right|]. by apply (Htake io1 e). }
  assert (np.isnan_elem (dtype x) highest = false) as Hhigh
    by (unfold highest; by destruct (dtype x)).
  assert (np.isnan_elem (dtype x) lowest = false) as Hlow
    by (unfold lowest; by destruct (dtype x)).
  destruct (Hfold _ _ highest (fmin_choice (dtype x))) as [? ?]; [|done|].
  { intros io1 in2 Ht. apply negb_true_iff, orb_false_iff in Ht. tauto. }
  destruct (Hfold _ _ lowest (fmax_choice (dtype x))) as [? ?]; [|done|].
  { intros io1 in2 Ht. apply negb_true_iff, orb_false_iff in Ht. tauto. }
  done.
Qed.

(** ** [Replacement.compute] when nothing qualifies *)

Lemma sum_zeros (l : list spec_float) :
  Forall (fun f => f = S754_zero false) l -> np.sum l = S754_zero false.
Proof.
  unfold np.sum. induction 1 as [|f l -> _ IH]; [reflexivity|].
  cbn [fold_left]. exact IH.
Qed.

(** If no element of the array is finite, [finite_min] is [info.max],
    [finite_max] is [info.min] and [finite_mean] is the cast of the NaN
    that dividing by a count of zero gives, a NaN in an array of
    doubles. *)
Theorem compute_no_finite p x :
  Forall (fun e => np.isfinite_elem (dtype x) e = false) (data x) ->
  compute p finite_min x = np.info_max (dtype x) /\
  compute p finite_max x = np.info_min (dtype x) /\
  compute p finite_mean x = np.astype p S754_nan (dtype x) /\
  (dtype x = float64 ->
   np.isnan_elem (dtype x) (compute p finite_mean x) = true).
Proof.
  intros Hnone.
  assert (np.select (np.isfinite x) (data x) = []) as Hsel
    by by apply select_none.
  assert (compute p finite_mean x = np.astype p S754_nan (dtype x)) as Hmean.
  { unfold compute, np.mean. by rewrite Hsel. }
  split_and!.
  - unfold compute, np.amin. by rewrite Hsel.
  - unfold compute, np.amax. by rewrite Hsel.
  - done.
  - intros Hdt. rewrite Hmean, Hdt. by destruct p.
Qed.

Lemma compute_no_finite_witness :
  Forall (fun e => np.isfinite_elem (dtype (mk_ndarray float64 [2%nat]
                     [Binary64.pos_inf; Binary64.neg_nan])) e = false)
         (data (mk_ndarray float64 [2%nat] [Binary64.pos_inf; Binary64.neg_nan])) /\
  compute x86_64 finite_min
          (mk_ndarray float64 [2%nat] [Binary64.pos_inf; Binary64.neg_nan])
    = Binary64.finfo_max.
Proof.
  assert (Forall (fun e => np.isfinite_elem float64 e = false)
                 [Binary64.pos_inf; Binary64.neg_nan]) as Hnone
    by (repeat constructor).
  split; [exact Hnone|].
  apply (compute_no_finite x86_64
           (mk_ndarray float64 [2%nat] [Binary64.pos_inf; Binary64.neg_nan]) Hnone).
Defined.

(** If every element of the array is NaN, [nan_min] and [nan_max] are
    the initial values of their reductions and [nan_mean] is the cast of
    the NaN that dividing by a count of zero gives. *)
Theorem compute_all_nan p x :
  Forall (fun e => np.isnan_elem (dtype x) e = true) (data x) ->
  compute p nan_min x = (if np.issubdtype_floating (dtype x)
                         then Binary64.pos_inf else np.info_max (dtype x)) /\
  compute p nan_max x = (if np.issubdtype_floating (dtype x)
                         then Binary64.neg_inf else np.info_min (dtype x)) /\
  compute p nan_mean x = np.astype p S754_nan (dtype x).
Proof.
  intros Hall.
  assert (forall (f : Z -> Z -> Z) init,
    (forall io1 in2, np.isnan_elem (dtype x) in2 = true -> f io1 in2 = io1) ->
    fold_left f (data x) init = init) as Hfold.
  { intros f init Hf. induction Hall as [|e l He _ IH]; [reflexivity|].
    cbn [fold_left]. by rewrite Hf. }
  split_and!.
  - unfold compute, np.nanmin. apply Hfold. intros io1 in2 Hnan.
    unfold np.fmin. rewrite Hnan. by rewrite orb_true_r.
  - unfold compute, np.nanmax. apply Hfold. intros io1 in2 Hnan.
    unfold np.fmax. rewrite Hnan. by rewrite orb_true_r.
  - unfold compute, np.nanmean. destruct (dtype x) eqn:Hdt.
    + assert (data x = []) as ->
        by (destruct Hall as [|e l He _]; [done|discriminate He]).
      reflexivity.
    + f_equal. rewrite sum_zeros.
      * assert (filter (fun b => np.isnan_elem float64 b = false) (data x) = []) as ->.
        { clear Hfold. induction Hall as [|e l He _ IH]; [reflexivity|].
          rewrite filter_cons. rewrite decide_False by (by rewrite He).
          exact IH. }
        reflexivity.
      * apply Forall_fmap. apply (Forall_impl _ _ _ Hall).
        intros e He. cbn beta. unfold compose. by rewrite He.
Qed.

Lemma compute_all_nan_witness :
  Forall (fun e => np.isnan_elem (dtype (mk_ndarray float64 [2%nat]
                     [Binary64.pos_nan; Binary64.neg_nan])) e = true)
         (data (mk_ndarray float64 [2%nat] [Binary64.pos_nan; Binary64.neg_nan])) /\
  compute aarch64 nan_mean
          (mk_ndarray float64 [2%nat] [Binary64.pos_nan; Binary64.neg_nan])
    = Binary64.pos_nan.
Proof.
  assert (Forall (fun e => np.isnan_elem float64 e = true)
                 [Binary64.pos_nan; Binary64.neg_nan]) as Hall
    by (repeat constructor).
  split; [exact Hall|].
  apply (compute_all_nan aarch64
           (mk_ndarray float64 [2%nat] [Binary64.pos_nan; Binary64.neg_nan]) Hall).
Defined.

(** ** [Replacement.compute] on arrays of integers *)

Lemma fold_left_pointwise (f g : Z -> Z -> Z) (l : list Z) :
  (forall a b, f a b = g a b) ->
  forall init, fold_left f l init = fold_left g l init.
Proof.
  intros Hfg. induction l as [|e l IH]; intros init; [reflexivity|].
  cbn [fold_left]. by rewrite Hfg, IH.
Qed.

(** Every integer is finite and none is NaN: on an array of integers each
    [finite_] value is the [nan_] value of the same kind. *)
Theorem compute_int_finite_is_nan p x :
  dtype x = int64 ->
  compute p finite_min x = compute p nan_min x /\
  compute p finite_mean x = compute p nan_mean x /\
  compute p finite_max x = compute p nan_max x.
Proof.
  intros Hdt.
  assert (np.isfinite x = map (fun _ => true) (data x)) as Hfin.
  { unfold np.isfinite. by rewrite Hdt. }
  split_and!.
  - unfold compute, np.amin, np.nanmin. rewrite Hfin, select_all, Hdt.
    by apply fold_left_pointwise.
  - unfold compute, np.nanmean. by rewrite Hfin, Hdt.
  - unfold compute, np.amax, np.nanmax. rewrite Hfin, select_all, Hdt.
    by apply fold_left_pointwise.
Qed.

Lemma compute_int_finite_is_nan_witness :
  dtype int_24 = int64 /\
  compute x86_64 finite_mean int_24 = compute x86_64 nan_mean int_24.
Proof.
  split; [reflexivity|].
  apply (compute_int_finite_is_nan x86_64 int_24). reflexivity.
Defined.

Lemma signed_range b :
  Int64.iinfo_min <= Int64.signed b <= Int64.iinfo_max.
Proof.
  unfold Int64.signed, Int64.iinfo_min, Int64.iinfo_max, Int64.modulus.
  pose proof (Z.mod_pos_bound b 0x10000000000000000 eq_refl) as Hb.
  destruct (Z.ltb_spec (b mod 0x10000000000000000) 0x8000000000000000); lia.
Qed.

Lemma int_minimum_reduce (l : list Z) : forall init,
  let r := fold_left (np.minimum int64) l init in
  Int64.signed r <= Int64.signed init /\
  forall e, e ∈ l -> Int64.signed r <= Int64.signed e.
Proof.
  induction l as [|e l IH]; intros init r.
  - split; [done|]. intros e He. by apply elem_of_nil in He.
  - destruct (IH (np.minimum int64 init e)) as [Hinit Hl].
    assert (Int64.signed (np.minimum int64 init e) <= Int64.signed init /\
            Int64.signed (np.minimum int64 init e) <= Int64.signed e) as [H1 H2].
    { unfold np.minimum, np.le, np.isnan_elem. rewrite orb_false_r.
      destruct (Z.leb_spec (Int64.signed init) (Int64.signed e)); lia. }
    subst r. cbn [fold_left]. split; [lia|].
    intros e' [->|He']%elem_of_cons; [lia|by apply Hl].
Qed.

Lemma int_maximum_reduce (l : list Z) : forall init,
  let r := fold_left (np.maximum int64) l init in
  Int64.signed init <= Int64.signed r /\
  forall e, e ∈ l -> Int64.signed e <= Int64.signed r.
Proof.
  induction l as [|e l IH]; intros init r.
  - split; [done|]. intros e He. by apply elem_of_nil in He.
  - destruct (IH (np.maximum int64 init e)) as [Hinit Hl].
    assert (Int64.signed init <= Int64.signed (np.maximum int64 init e) /\
            Int64.signed e <= Int64.signed (np.maximum int64 init e)) as [H1 H2].
    { unfold np.maximum, np.le, np.isnan_elem. rewrite orb_false_r.
      destruct (Z.leb_spec (Int64.signed e) (Int64.signed init)); lia. }
    subst r. cbn [fold_left]. split; [lia|].
    intros e' [->|He']%elem_of_cons; [lia|by apply Hl].
Qed.

(** On an array of integers [finite_min] is below every element and
    [finite_max] above every element, as signed integers, and when the
    array has an element each is the value of one. *)
Theorem compute_int_extrema p x :
  dtype x = int64 ->
  (forall e, e ∈ data x ->
     Int64.signed (compute p finite_min x) <= Int64.signed e /\
     Int64.signed e <= Int64.signed (compute p finite_max x)) /\
  (data x <> [] ->
   (exists e, e ∈ data x /\ Int64.signed e = Int64.signed (compute p finite_min x)) /\
   (exists e, e ∈ data x /\ Int64.signed e = Int64.signed (compute p finite_max x))).
Proof.
  intros Hdt.
  assert (np.isfinite x = map (fun _ => true) (data x)) as Hfin.
  { unfold np.isfinite. by rewrite Hdt. }
  assert (compute p finite_min x
          = fold_left (np.minimum int64) (data x) (np.info_max int64)) as Hmin.
  { unfold compute, np.amin. by rewrite Hfin, select_all, Hdt. }
  assert (compute p finite_max x
          = fold_left (np.maximum int64) (data x) (np.info_min int64)) as Hmax.
  { unfold compute, np.amax. by rewrite Hfin, select_all, Hdt. }
  destruct (int_minimum_reduce (data x) (np.info_max int64)) as [_ Hlow].
  destruct (int_maximum_reduce (data x) (np.info_min int64)) as [_ Hhigh].
  rewrite <- Hmin in Hlow. rewrite <- Hmax in Hhigh.
  assert (compute p finite_min x = np.info_max int64 \/
          compute p finite_min x ∈ data x) as Hmin_in.
  { rewrite Hmin.
    destruct (fold_left_choice (np.minimum int64) _ (data x)
                (minimum_choice int64) (np.info_max int64))
      as [Heq|(io1 & e & Hin & _ & Heq)]; rewrite Heq; [by left|by right]. }
  assert (compute p finite_max x = np.info_min int64 \/
          compute p finite_max x ∈ data x) as Hmax_in.
  { rewrite Hmax.
    destruct (fold_left_choice (np.maximum int64) _ (data x)
                (maximum_choice int64) (np.info_min int64))
      as [Heq|(io1 & e & Hin & _ & Heq)]; rewrite Heq; [by left|by right]. }
  split; [intros e He; split; [by apply Hlow|by apply Hhigh]|].
  intros Hne. destruct (data x) as [|e0 l] eqn:Hdata; [done|].
  assert (e0 ∈ e0 :: l) as He0 by (apply elem_of_cons; by left).
  pose proof (signed_range e0) as Hr.
  split.
  - destruct Hmin_in as [Heq|Hin]; [|by exists (compute p finite_min x)].
    exists e0. split; [done|]. specialize (Hlow e0 He0).
    rewrite Heq in Hlow |- *.
    change (Int64.signed (np.info_max int64)) with Int64.iinfo_max in *. lia.
  - destruct Hmax_in as [Heq|Hin]; [|by exists (compute p finite_max x)].
    exists e0. split; [done|]. specialize (Hhigh e0 He0).
    rewrite Heq in Hhigh |- *.
    change (Int64.signed (np.info_min int64)) with Int64.iinfo_min in *. lia.
Qed.

Lemma compute_int_extrema_witness :
  dtype int_24 = int64 /\
  (forall e, e ∈ data int_24 ->
     Int64.signed (compute x86_64 finite_min int_24) <= Int64.signed e /\
     Int64.signed e <= Int64.signed (compute x86_64 finite_max int_24)).
Proof.
  split; [reflexivity|].
  apply (compute_int_extrema x86_64 int_24). reflexivity.
Defined.


(** ** [encode]: when it returns and what it writes *)

Lemma replace_all_app rs1 rs2 x :
  replace_all (rs1 ++ rs2) x =
    match (replace_all rs1 x).1 with
    | Ok _ => replace_all rs2 (replace_all rs1 x).2
    | Raise e => (Raise e, (replace_all rs1 x).2)
    end.
Proof.
  revert x. induction rs1 as [|r rs1 IH]; intros x; [reflexivity|].
  cbn [app replace_all]. destruct (replace_array r x) as [x'|e]; [apply IH|done].
Qed.

Lemma encode_returns p self buf (h : store) arr :
  h !! buf = Some arr ->
  forallb (rule_accepted (dtype arr)) (_replacements self) = true ->
  encode p self buf h =
    (Ok (fresh (dom h)),
     <[fresh (dom h) := (replace_all (resolved p arr (_replacements self)) arr).2]> h).
Proof.
  intros Hbuf Hacc. rewrite (encode_run p self buf h arr Hbuf). cbn zeta.
  pose proof (replace_all_ok (resolved p arr (_replacements self)) arr) as Hok.
  rewrite resolved_accepted, Hacc in Hok.
  by destruct (replace_all _ arr).1.
Qed.

Lemma rule_typed_accepted dt kv : rule_typed dt kv = true -> rule_accepted dt kv = true.
Proof.
  destruct kv as [k v]. unfold rule_typed, rule_accepted, key_converts, np.cast_scalar.
  cbn [fst snd].
  destruct dt, k as [z|kb], v as [[z'|b']|r]; try done.
  - intros ->. done.
  - intros ->. done.
Qed.

(** With rules whose numbers are of the kind of the element type,
    [encode] raises nothing: it returns a new array. *)
Theorem encode_typed_rules_return p self buf (h : store) arr :
  h !! buf = Some arr ->
  Forall (fun kv => rule_typed (dtype arr) kv = true) (_replacements self) ->
  exists enc,
    encode p self buf h = (Ok (fresh (dom h)), <[fresh (dom h) := enc]> h).
Proof.
  intros Hbuf Htyped. eexists. apply encode_returns; [done|].
  apply forallb_forall. intros kv Hin.
  apply rule_typed_accepted.
  by apply (proj1 (Forall_forall _ _) Htyped), list_elem_of_In.
Qed.

Lemma encode_typed_rules_return_witness :
  store_of nonfinite_array !! 1%positive = Some nonfinite_array /\
  Forall (fun kv => rule_typed (dtype nonfinite_array) kv = true)
         (_replacements nonfinite_codec) /\
  exists enc,
    encode x86_64 nonfinite_codec 1%positive (store_of nonfinite_array)
      = (Ok (fresh (dom (store_of nonfinite_array))),
         <[fresh (dom (store_of nonfinite_array)) := enc]> (store_of nonfinite_array)).
Proof.
  assert (Forall (fun kv => rule_typed (dtype nonfinite_array) kv = true)
                 (_replacements nonfinite_codec)) as Htyped
    by (repeat constructor).
  split; [reflexivity|]. split; [exact Htyped|].
  apply (encode_typed_rules_return x86_64 nonfinite_codec 1%positive
           (store_of nonfinite_array) nonfinite_array); [reflexivity|exact Htyped].
Defined.

Lemma put_mask_none (mask : list bool) b (l : list Z) :
  length mask = length l -> Forall (fun m => m = false) mask ->
  np.put_mask mask b l = l.
Proof.
  intros Hlen Hmask. revert l Hlen.
  induction Hmask as [|m mask -> _ IH]; intros [|e l] Hlen; try done.
  unfold np.put_mask. cbn [zip_with]. f_equal. apply IH. by injection Hlen.
Qed.

Lemma rule_mask_length k x mask :
  rule_mask k x = Ok mask -> length mask = length (data x).
Proof.
  unfold rule_mask. destruct (compares_equal k).
  - apply equal_length.
  - intros [= <-]. apply isnan_length.
Qed.

Lemma replace_array_rule_mask k v x :
  replace_array (k, v) x =
    match rule_mask k x with
    | Ok mask => np.setitem_mask x mask v
    | Raise e => Raise e
    end.
Proof.
  unfold replace_array, rule_mask, compares_equal.
  by destruct (isinstance_int k || negb (np.isnan_scalar k)).
Qed.

Lemma with_data_same x : with_data x (data x) = x.
Proof. by destruct x. Qed.

Lemma replace_array_no_match k v x mask b :
  rule_mask k x = Ok mask -> Forall (fun m => m = false) mask ->
  np.cast_scalar (dtype x) v = Ok b ->
  replace_array (k, v) x = Ok x.
Proof.
  intros Hmask Hfalse Hcast. rewrite replace_array_rule_mask, Hmask.
  unfold np.setitem_mask. rewrite Hcast.
  rewrite put_mask_none; [by rewrite with_data_same| |done].
  by apply (rule_mask_length k x).
Qed.

(** When every rule can be applied and no element of the input is
    selected by any of them, what [encode] returns has the contents of the
    input, bit for bit. *)
Theorem encode_without_match p self buf (h : store) arr :
  h !! buf = Some arr ->
  forallb (rule_accepted (dtype arr)) (_replacements self) = true ->
  Forall (fun kv => forall mask, rule_mask kv.1 arr = Ok mask ->
                      Forall (fun m => m = false) mask)
         (_replacements self) ->
  encode p self buf h = (Ok (fresh (dom h)), <[fresh (dom h) := arr]> h).
Proof.
  intros Hbuf Hacc Hnone. rewrite (encode_returns p self buf h arr Hbuf Hacc).
  do 2 f_equal.
  assert (forall rs,
    forallb (fun kv => key_converts (dtype arr) kv.1
                       && is_ok (np.cast_scalar (dtype arr) kv.2)) rs = true ->
    Forall (fun kv => forall mask, rule_mask kv.1 arr = Ok mask ->
                        Forall (fun m => m = false) mask) rs ->
    (replace_all rs arr).2 = arr) as Hall.
  { induction rs as [|[k v] rs IH]; [done|]. cbn [forallb fst snd].
    intros [[Hk Hv]%andb_true_iff Hrs]%andb_true_iff [Hm Hms]%Forall_cons.
    cbn [replace_all fst] in *.
    destruct (np.cast_scalar (dtype arr) v) as [b|] eqn:Hcast; [|done].
    destruct (rule_mask k arr) as [mask|e] eqn:Hmask.
    - rewrite (replace_array_no_match k v arr mask b); auto.
    - rewrite replace_array_rule_mask, Hmask. done. }
  apply Hall.
  - by rewrite resolved_accepted.
  - unfold resolved. apply Forall_fmap. apply (Forall_impl _ _ _ Hnone).
    by intros [k v].
Qed.

Lemma encode_without_match_witness :
  store_of int_24 !! 1%positive = Some int_24 /\
  encode x86_64 (mk_codec [(PyInt 7, RNum (PyInt 8)); (PyFloat Binary64.pos_nan, RSpecial nan_mean)])
         1%positive (store_of int_24)
    = (Ok (fresh (dom (store_of int_24))),
       <[fresh (dom (store_of int_24)) := int_24]> (store_of int_24)).
Proof.
  split; [reflexivity|].
  apply (encode_without_match x86_64
           (mk_codec [(PyInt 7, RNum (PyInt 8)); (PyFloat Binary64.pos_nan, RSpecial nan_mean)])
           1%positive (store_of int_24) int_24); [reflexivity|reflexivity|].
  repeat constructor; intros mask [= <-]; repeat constructor.
Defined.

Lemma replace_array_element kv x x' (i : nat) e' :
  replace_array kv x = Ok x' -> data x' !! i = Some e' ->
  data x !! i = Some e' \/ np.cast_scalar (dtype x) kv.2 = Ok e'.
Proof.
  destruct kv as [k v]. rewrite replace_array_rule_mask.
  destruct (rule_mask k x) as [mask|] eqn:Hmask; [|done].
  intros (b & Hcast & ->)%setitem_mask_inv. cbn [data with_data snd].
  unfold np.put_mask. rewrite lookup_zip_with.
  destruct (mask !! i) as [m|]; [|done]. cbn.
  destruct (data x !! i) as [e|]; [|done]. cbn.
  destruct m; intros [= <-]; [by right|by left].
Qed.

Lemma replace_all_element rs : forall x (i : nat) e',
  data (replace_all rs x).2 !! i = Some e' ->
  data x !! i = Some e' \/
  exists kv, kv ∈ rs /\ np.cast_scalar (dtype x) kv.2 = Ok e'.
Proof.
  induction rs as [|r rs IH]; intros x i e'; [by left|].
  cbn [replace_all]. destruct (replace_array r x) as [x'|err] eqn:Hr; [|by left].
  intros [Hx'|(kv & Hin & Hcast)]%IH.
  - destruct (replace_array_element r x x' i e' Hr Hx') as [?|?]; [by left|].
    right. exists r. split; [apply elem_of_cons; by left|done].
  - right. exists kv. split; [apply elem_of_cons; by right|].
    apply replace_array_frame in Hr as (<- & _). done.
Qed.

(** Whether [encode] returns or raises, every element of the working copy
    is the element of the input at that place, or the element stored for
    the value of one of the rules: the number of the rule, or its special
    value computed on the input. *)
Theorem encode_writes_rule_values p self buf (h : store) arr enc (i : nat) e' :
  h !! buf = Some arr ->
  (encode p self buf h).2 !! fresh (dom h) = Some enc ->
  data enc !! i = Some e' ->
  data arr !! i = Some e' \/
  exists k v, (k, v) ∈ _replacements self /\
    np.cast_scalar (dtype arr)
      match v with
      | RSpecial r => Number (compute p r arr)
      | RNum n => Num n
      end = Ok e'.
Proof.
  intros Hbuf. rewrite (encode_run p self buf h arr Hbuf). cbn [snd].
  rewrite lookup_insert_eq. intros [= <-] He'.
  apply replace_all_element in He' as [?|([k w] & Hin & Hcast)]; [by left|].
  right. unfold resolved in Hin.
  apply list_elem_of_fmap in Hin as ([k' v] & [= -> ->] & Hin).
  exists k', v. split; [done|]. cbn [snd] in Hcast. by destruct v.
Qed.

Lemma encode_writes_rule_values_witness :
  store_of int_24 !! 1%positive = Some int_24 /\
  (encode x86_64 chain_codec 1%positive (store_of int_24)).2
     !! fresh (dom (store_of int_24)) = Some (mk_ndarray int64 [1%nat] [0]) /\
  data (mk_ndarray int64 [1%nat] [0]) !! 0%nat = Some 0 /\
  (data int_24 !! 0%nat = Some 0 \/
   exists k v, (k, v) ∈ _replacements chain_codec /\
     np.cast_scalar (dtype int_24)
       match v with
       | RSpecial r => Number (compute x86_64 r int_24)
       | RNum n => Num n
       end = Ok 0).
Proof.
  split; [reflexivity|]. split; [reflexivity|]. split; [reflexivity|].
  apply (encode_writes_rule_values x86_64 chain_codec 1%positive (store_of int_24)
           int_24 (mk_ndarray int64 [1%nat] [0]) 0%nat 0); reflexivity.
Defined.

(** ** [encode]: stacking two codecs

    The class documentation proposes to stack codecs so that some
    replacements are made before a special value is computed.  When the
    second codec holds only numbers nothing is computed in it, and the
    stack is the codec of all the rules. *)

Lemma resolved_numbers p x y rules :
  Forall (fun kv => exists n, kv.2 = RNum n) rules ->
  resolved p x rules = resolved p y rules.
Proof.
  unfold resolved. induction 1 as [|[k v] rules [n Hn] _ IH]; [reflexivity|].
  cbn [map fst snd]. rewrite IH. cbn [snd] in Hn. by subst v.
Qed.

Lemma resolved_app p x rs1 rs2 :
  resolved p x (rs1 ++ rs2) = resolved p x rs1 ++ resolved p x rs2.
Proof. apply map_app. Qed.

(** If the codec of [rs1] returns, encoding its result with a codec of
    [rs2], rules whose values are all numbers, ends as the codec of
    [rs1 ++ rs2] does on the input: both return or both raise the same
    exception, with the same array as working copy. *)
Theorem encode_stacked p rs1 rs2 buf (h : store) arr a1 h1 :
  h !! buf = Some arr ->
  Forall (fun kv => exists n, kv.2 = RNum n) rs2 ->
  encode p (mk_codec rs1) buf h = (Ok a1, h1) ->
  let both := encode p (mk_codec (rs1 ++ rs2)) buf h in
  let second := encode p (mk_codec rs2) a1 h1 in
  match both.1, second.1 with
  | Ok _, Ok _ => True
  | Raise e, Raise e' => e = e'
  | _, _ => False
  end /\
  is_Some (both.2 !! fresh (dom h)) /\
  both.2 !! fresh (dom h) = second.2 !! fresh (dom h1).
Proof.
  intros Hbuf Hnum Hfirst both second.
  rewrite (encode_run p (mk_codec rs1) buf h arr Hbuf) in Hfirst.
  cbn [_replacements] in Hfirst.
  destruct (replace_all (resolved p arr rs1) arr).1 as [[]|] eqn:Hok1; [|done].
  injection Hfirst as <- <-.
  set (enc1 := (replace_all (resolved p arr rs1) arr).2) in *.
  assert (<[fresh (dom h) := enc1]> h !! fresh (dom h) = Some enc1) as Ha1
    by apply lookup_insert_eq.
  assert (replace_all (resolved p arr (rs1 ++ rs2)) arr
          = replace_all (resolved p enc1 rs2) enc1) as Hboth.
  { rewrite resolved_app, replace_all_app, Hok1. fold enc1.
    by rewrite (resolved_numbers p arr enc1 rs2 Hnum). }
  subst both second.
  rewrite (encode_run p (mk_codec (rs1 ++ rs2)) buf h arr Hbuf).
  rewrite (encode_run p (mk_codec rs2) _ _ enc1 Ha1).
  cbn [_replacements fst snd]. rewrite !lookup_insert_eq, Hboth.
  split_and!; [|done..].
  by destruct (replace_all (resolved p enc1 rs2) enc1).1.
Qed.

Lemma encode_stacked_witness :
  store_of int_24 !! 1%positive = Some int_24 /\
  Forall (fun kv : pynum * replacement_value => exists n, kv.2 = RNum n)
         [(PyInt 42, RNum (PyInt 0))] /\
  encode x86_64 (mk_codec [(PyInt 24, RNum (PyInt 42))]) 1%positive (store_of int_24)
    = (Ok 2%positive, <[2%positive := mk_ndarray int64 [1%nat] [42]]> (store_of int_24)) /\
  (encode x86_64 (mk_codec ([(PyInt 24, RNum (PyInt 42))] ++ [(PyInt 42, RNum (PyInt 0))]))
          1%positive (store_of int_24)).2 !! fresh (dom (store_of int_24))
    = (encode x86_64 (mk_codec [(PyInt 42, RNum (PyInt 0))]) 2%positive
              (<[2%positive := mk_ndarray int64 [1%nat] [42]]> (store_of int_24))).2
        !! fresh (dom (<[2%positive := mk_ndarray int64 [1%nat] [42]]> (store_of int_24))).
Proof.
  assert (Forall (fun kv : pynum * replacement_value => exists n, kv.2 = RNum n)
                 [(PyInt 42, RNum (PyInt 0))]) as Hnum
    by (repeat constructor; by eexists).
  split; [reflexivity|]. split; [exact Hnum|]. split; [reflexivity|].
  apply (encode_stacked x86_64 [(PyInt 24, RNum (PyInt 42))] [(PyInt 42, RNum (PyInt 0))]
           1%positive (store_of int_24) int_24 2%positive
           (<[2%positive := mk_ndarray int64 [1%nat] [42]]> (store_of int_24)));
    [reflexivity|exact Hnum|reflexivity].
Defined.

(** ** [encode]: NaN keys *)

(** When the last rule has a NaN key and the element stored for its value
    is not NaN, no element of what [encode] returns is NaN. *)
Theorem encode_removes_nan p self rules k v buf (h : store) arr b a h' :
  h !! buf = Some arr ->
  _replacements self = rules ++ [(k, v)] ->
  isinstance_int k = false -> np.isnan_scalar k = true ->
  np.cast_scalar (dtype arr)
    match v with
    | RSpecial r => Number (compute p r arr)
    | RNum n => Num n
    end = Ok b ->
  np.isnan_elem (dtype arr) b = false ->
  encode p self buf h = (Ok a, h') ->
  exists enc, h' !! a = Some enc /\
    Forall (fun e => np.isnan_elem (dtype enc) e = false) (data enc).
Proof.
  intros Hbuf Hrules Hint Hnan Hcast Hb.
  rewrite (encode_run p self buf h arr Hbuf), Hrules, resolved_app, replace_all_app.
  cbn zeta.
  pose proof (replace_all_frame (resolved p arr rules) arr) as (Hdt & _ & _).
  destruct (replace_all (resolved p arr rules) arr) as [[[]|err] x1]; [|done].
  cbn [fst snd resolved map replace_all] in *.
  assert (np.cast_scalar (dtype x1) (resolve_value p arr v) = Ok b) as Hcast'.
  { rewrite Hdt. by destruct v. }
  rewrite (replace_array_nan_key k _ x1 b Hint Hnan Hcast').
  intros [= <- <-]. eexists. split; [apply lookup_insert_eq|].
  cbn [data dtype with_data]. apply Forall_fmap, Forall_forall.
  intros e _. cbn. rewrite Hdt.
  by destruct (np.isnan_elem (dtype arr) e) eqn:He.
Qed.

Lemma encode_removes_nan_witness :
  store_of nonfinite_array !! 1%positive = Some nonfinite_array /\
  np.isnan_elem (dtype nonfinite_array) Binary64.pos_zero = false /\
  exists enc,
    (<[2%positive := mk_ndarray float64 [6%nat]
         [Binary64.pos_inf; Binary64.neg_inf; Binary64.pos_zero; Binary64.pos_zero;
          Binary64.pos_zero; Binary64.neg_zero]]> (store_of nonfinite_array))
      !! 2%positive = Some enc /\
    Forall (fun e => np.isnan_elem (dtype enc) e = false) (data enc).
Proof.
  split; [reflexivity|]. split; [reflexivity|].
  apply (encode_removes_nan x86_64
           (mk_codec [(PyFloat Binary64.pos_nan, RNum (PyFloat Binary64.pos_zero))])
           [] (PyFloat Binary64.pos_nan) (RNum (PyFloat Binary64.pos_zero))
           1%positive (store_of nonfinite_array) nonfinite_array
           Binary64.pos_zero 2%positive); reflexivity.
Defined.

(** An array of integers holds no NaN: a codec all of whose keys are NaN
    returns it unchanged, as long as its values can be stored in it. *)
Theorem encode_nan_keys_on_integers p self buf (h : store) arr :
  h !! buf = Some arr ->
  dtype arr = int64 ->
  forallb (rule_accepted int64) (_replacements self) = true ->
  Forall (fun kv => isinstance_int kv.1 = false /\ np.isnan_scalar kv.1 = true)
         (_replacements self) ->
  encode p self buf h = (Ok (fresh (dom h)), <[fresh (dom h) := arr]> h).
Proof.
  intros Hbuf Hdt Hacc Hkeys.
  rewrite (encode_returns p self buf h arr Hbuf) by by rewrite Hdt.
  do 2 f_equal.
  assert (forall rs,
    forallb (fun kv => key_converts int64 kv.1
                       && is_ok (np.cast_scalar int64 kv.2)) rs = true ->
    Forall (fun kv => isinstance_int kv.1 = false /\ np.isnan_scalar kv.1 = true) rs ->
    (replace_all rs arr).2 = arr) as Hall.
  { induction rs as [|[k v] rs IH]; [done|]. cbn [forallb fst snd].
    intros [[Hk Hv]%andb_true_iff Hrs]%andb_true_iff [[Hint Hnan] Hks]%Forall_cons.
    cbn [replace_all fst snd] in *.
    destruct (np.cast_scalar int64 v) as [b|] eqn:Hcast; [|done].
    rewrite (replace_array_nan_key k v arr b Hint Hnan) by by rewrite Hdt.
    rewrite Hdt. cbn [np.isnan_elem].
    rewrite map_id, with_data_same. auto. }
  apply Hall.
  - by rewrite resolved_accepted.
  - unfold resolved. apply Forall_fmap. apply (Forall_impl _ _ _ Hkeys).
    by intros [k v].
Qed.

Lemma encode_nan_keys_on_integers_witness :
  store_of int_24 !! 1%positive = Some int_24 /\
  dtype int_24 = int64 /\
  encode x86_64 (mk_codec [(PyFloat Binary64.neg_nan, RSpecial nan_mean)])
         1%positive (store_of int_24)
    = (Ok (fresh (dom (store_of int_24))),
       <[fresh (dom (store_of int_24)) := int_24]> (store_of int_24)).
Proof.
  split; [reflexivity|]. split; [reflexivity|].
  apply (encode_nan_keys_on_integers x86_64
           (mk_codec [(PyFloat Binary64.neg_nan, RSpecial nan_mean)])
           1%positive (store_of int_24) int_24); [reflexivity..|].
  by repeat constructor.
Defined.

(** ** [encode]: zero keys *)

(** In an array of doubles a rule whose key is the integer [0], [0.0] or
    [-0.0] overwrites the elements [0.0] and the elements [-0.0] alike. *)
Theorem zero_key_matches_both_zeros k v x x' (i : nat) e b :
  dtype x = float64 ->
  k ∈ [PyInt 0; PyFloat Binary64.pos_zero; PyFloat Binary64.neg_zero] ->
  data x !! i = Some e ->
  e = Binary64.pos_zero \/ e = Binary64.neg_zero ->
  np.cast_scalar float64 v = Ok b ->
  replace_array (k, v) x = Ok x' ->
  data x' !! i = Some b.
Proof.
  intros Hdt Hk He Hzero Hcast.
  assert (exists f, SFeqb (S754_zero false) f = true /\
                    SFeqb (S754_zero true) f = true /\
                    replace_array (k, v) x =
                      np.setitem_mask x
                        (map (fun b0 => Binary64.eqb (Binary64.to_spec b0) f) (data x)) v)
    as (f & Hpos & Hneg & ->).
  { unfold replace_array, np.equal. rewrite Hdt.
    repeat (apply elem_of_cons in Hk as [->|Hk]); [..|by apply elem_of_nil in Hk].
    - by exists (S754_zero false).
    - by exists (S754_zero false).
    - by exists (S754_zero true). }
  unfold np.setitem_mask. rewrite Hdt, Hcast. intros [= <-].
  cbn [data with_data].
  rewrite (put_mask_lookup _ b (data x) i true e); [done| |done].
  rewrite list_lookup_fmap, He. cbn. f_equal.
  by destruct Hzero as [-> | ->].
Qed.

Lemma zero_key_matches_both_zeros_witness :
  dtype nonfinite_array = float64 /\
  PyInt 0 ∈ [PyInt 0; PyFloat Binary64.pos_zero; PyFloat Binary64.neg_zero] /\
  data nonfinite_array !! 5%nat = Some Binary64.neg_zero /\
  data (mk_ndarray float64 [6%nat]
          [Binary64.pos_inf; Binary64.neg_inf; Binary64.pos_nan; Binary64.neg_nan;
           0x3FF0000000000000; 0x3FF0000000000000]) !! 5%nat
    = Some 0x3FF0000000000000.
Proof.
  assert (PyInt 0 ∈ [PyInt 0; PyFloat Binary64.pos_zero; PyFloat Binary64.neg_zero])
    as Hk by (apply elem_of_cons; by left).
  split; [reflexivity|]. split; [exact Hk|]. split; [reflexivity|].
  apply (zero_key_matches_both_zeros (PyInt 0) (Num (PyInt 1)) nonfinite_array
           _ 5%nat Binary64.neg_zero 0x3FF0000000000000);
    [reflexivity|exact Hk|reflexivity|by right|reflexivity|reflexivity].
Defined.


(** ** [Replacement.compute] on arrays of doubles: the extrema are bounds *)

Lemma compare_cont_spec m1 m2 :
  match Pos.compare_cont Eq m1 m2 with
  | Eq => m1 = m2
  | Lt => (m1 < m2)%positive
  | Gt => (m2 < m1)%positive
  end.
Proof.
  change (Pos.compare_cont Eq m1 m2) with (Pos.compare m1 m2).
  by destruct (Pos.compare_spec m1 m2).
Qed.

Lemma SFleb_lex a b :
  a <> S754_nan -> b <> S754_nan ->
  SFleb a b = true <-> lex_le (order_key a) (order_key b).
Proof.
  intros Ha Hb. unfold SFleb, SFcompare, lex_le.
  destruct a as [sa|sa| |sa ma ea], b as [sb|sb| |sb mb eb]; try done;
    try destruct sa; try destruct sb; cbn [order_key fst snd];
    try (split; [intros _; lia | done]);
    try (split; [done | intros; lia]).
  - destruct (Z.compare_spec ea eb);
      [pose proof (compare_cont_spec ma mb); destruct (Pos.compare_cont Eq ma mb)|..];
      cbn [CompOpp]; (split; [intros; try done; lia | intros; try done; lia]).
  - destruct (Z.compare_spec ea eb);
      [pose proof (compare_cont_spec ma mb); destruct (Pos.compare_cont Eq ma mb)|..];
      cbn [CompOpp]; (split; [intros; try done; lia | intros; try done; lia]).
Qed.

Lemma isnan_elem_false b :
  np.isnan_elem float64 b = false <-> Binary64.to_spec b <> S754_nan.
Proof.
  unfold np.isnan_elem. destruct (Binary64.to_spec b); cbn; split; done.
Qed.

Lemma le_refl a : np.isnan_elem float64 a = false -> np.le float64 a a = true.
Proof.
  intros Ha%isnan_elem_false. unfold np.le, Binary64.leb.
  apply SFleb_lex; [done..|]. unfold lex_le. lia.
Qed.

Lemma le_total a b :
  np.isnan_elem float64 a = false -> np.isnan_elem float64 b = false ->
  np.le float64 a b = false -> np.le float64 b a = true.
Proof.
  intros Ha%isnan_elem_false Hb%isnan_elem_false Hab. unfold np.le, Binary64.leb in *.
  apply SFleb_lex; [done..|].
  assert (~ lex_le (order_key (Binary64.to_spec a)) (order_key (Binary64.to_spec b)))
    as Hn.
  { intros Hle. apply SFleb_lex in Hle; [congruence|done..]. }
  unfold lex_le in *. lia.
Qed.

Lemma le_trans a b c :
  np.isnan_elem float64 a = false -> np.isnan_elem float64 b = false ->
  np.isnan_elem float64 c = false ->
  np.le float64 a b = true -> np.le float64 b c = true -> np.le float64 a c = true.
Proof.
  intros Ha%isnan_elem_false Hb%isnan_elem_false Hc%isnan_elem_false.
  unfold np.le, Binary64.leb.
  intros Hab%SFleb_lex Hbc%SFleb_lex; [|done..].
  apply SFleb_lex; [done..|]. unfold lex_le in *. lia.
Qed.

Lemma reduce_min_bound (f : Z -> Z -> Z) (l : list Z) :
  (forall io1 in2, np.isnan_elem float64 io1 = false ->
     np.isnan_elem float64 in2 = false ->
     f io1 in2 = if np.le float64 io1 in2 then io1 else in2) ->
  Forall (fun e => np.isnan_elem float64 e = false) l ->
  forall init, np.isnan_elem float64 init = false ->
    let r := fold_left f l init in
    np.isnan_elem float64 r = false /\ np.le float64 r init = true /\
    forall e, e ∈ l -> np.le float64 r e = true.
Proof.
  intros Hf Hl. induction Hl as [|e l He _ IH]; intros init Hinit r.
  - split_and!; [done|by apply le_refl|]. intros e He. by apply elem_of_nil in He.
  - subst r. cbn [fold_left].
    assert (np.isnan_elem float64 (f init e) = false /\
            np.le float64 (f init e) init = true /\
            np.le float64 (f init e) e = true) as (Hn & H1 & H2).
    { rewrite Hf by done. destruct (np.le float64 init e) eqn:Hle.
      - split_and!; [done|by apply le_refl|done].
      - split_and!; [done|by apply le_total|by apply le_refl]. }
    destruct (IH (f init e) Hn) as (Hr & Hri & Hrl).
    split_and!; [done|by apply (le_trans _ (f init e))|].
    intros e' [->|He']%elem_of_cons; [by apply (le_trans _ (f init e))|by apply Hrl].
Qed.

Lemma reduce_max_bound (f : Z -> Z -> Z) (l : list Z) :
  (forall io1 in2, np.isnan_elem float64 io1 = false ->
     np.isnan_elem float64 in2 = false ->
     f io1 in2 = if np.le float64 in2 io1 then io1 else in2) ->
  Forall (fun e => np.isnan_elem float64 e = false) l ->
  forall init, np.isnan_elem float64 init = false ->
    let r := fold_left f l init in
    np.isnan_elem float64 r = false /\ np.le float64 init r = true /\
    forall e, e ∈ l -> np.le float64 e r = true.
Proof.
  intros Hf Hl. induction Hl as [|e l He _ IH]; intros init Hinit r.
  - split_and!; [done|by apply le_refl|]. intros e He. by apply elem_of_nil in He.
  - subst r. cbn [fold_left].
    assert (np.isnan_elem float64 (f init e) = false /\
            np.le float64 init (f init e) = true /\
            np.le float64 e (f init e) = true) as (Hn & H1 & H2).
    { rewrite Hf by done. destruct (np.le float64 e init) eqn:Hle.
      - split_and!; [done|by apply le_refl|done].
      - split_and!; [done|by apply le_total|by apply le_refl]. }
    destruct (IH (f init e) Hn) as (Hr & Hri & Hrl).
    split_and!; [done|by apply (le_trans _ (f init e))|].
    intros e' [->|He']%elem_of_cons; [by apply (le_trans _ (f init e))|by apply Hrl].
Qed.

Lemma fold_left_skip (f : Z -> Z -> Z) (P : Z -> bool) (l : list Z) :
  (forall io1 in2, P in2 = false -> f io1 in2 = io1) ->
  forall init, fold_left f l init = fold_left f (filter (fun e => P e = true) l) init.
Proof.
  intros Hf. induction l as [|e l IH]; intros init; [reflexivity|].
  rewrite filter_cons. cbn [fold_left]. destruct (P e) eqn:He.
  - rewrite decide_True by done. cbn [fold_left]. apply IH.
  - rewrite decide_False by done. rewrite Hf by done. apply IH.
Qed.

Lemma finite_not_nan b :
  np.isfinite_elem float64 b = true -> np.isnan_elem float64 b = false.
Proof. unfold np.isfinite_elem, np.isnan_elem. by destruct (Binary64.to_spec b). Qed.

(** In an array of doubles, [finite_min] is below and [finite_max] above
    every finite element, and [nan_min] is below and [nan_max] above every
    element that is not NaN, in the order of doubles. *)
Theorem compute_float_extrema p x e :
  dtype x = float64 ->
  e ∈ data x ->
  (np.isfinite_elem float64 e = true ->
   np.le float64 (compute p finite_min x) e = true /\
   np.le float64 e (compute p finite_max x) = true) /\
  (np.isnan_elem float64 e = false ->
   np.le float64 (compute p nan_min x) e = true /\
   np.le float64 e (compute p nan_max x) = true).
Proof.
  intros Hdt He.
  assert (Forall (fun e => np.isnan_elem float64 e = false)
            (filter (fun e => np.isfinite_elem float64 e = true) (data x))) as Hfin.
  { apply Forall_forall. intros e' [Hf _]%list_elem_of_filter. by apply finite_not_nan. }
  assert (Forall (fun e => np.isnan_elem float64 e = false)
            (filter (fun e => negb (np.isnan_elem float64 e) = true) (data x))) as Hnn.
  { apply Forall_forall. intros e' [Hf _]%list_elem_of_filter.
    by apply negb_true_iff in Hf. }
  split.
  - intros Hefin.
    assert (e ∈ filter (fun e => np.isfinite_elem float64 e = true) (data x)) as Hin
      by by apply list_elem_of_filter.
    unfold compute, np.amin, np.amax, np.isfinite. rewrite Hdt, select_map_filter.
    split.
    + apply (reduce_min_bound (np.minimum float64) _); [|done..].
      intros io1 in2 Hio _. unfold np.minimum. by rewrite Hio, orb_false_r.
    + apply (reduce_max_bound (np.maximum float64) _); [|done..].
      intros io1 in2 Hio _. unfold np.maximum. by rewrite Hio, orb_false_r.
  - intros Henn.
    assert (e ∈ filter (fun e => negb (np.isnan_elem float64 e) = true) (data x)) as Hin.
    { apply list_elem_of_filter. split; [|done]. by rewrite Henn. }
    unfold compute, np.nanmin, np.nanmax. rewrite Hdt. cbn [np.issubdtype_floating].
    rewrite (fold_left_skip (np.fmin float64)
               (fun e => negb (np.isnan_elem float64 e))).
    2:{ intros io1 in2 Hn%negb_false_iff. unfold np.fmin.
        by rewrite Hn, orb_true_r. }
    rewrite (fold_left_skip (np.fmax float64)
               (fun e => negb (np.isnan_elem float64 e))).
    2:{ intros io1 in2 Hn%negb_false_iff. unfold np.fmax.
        by rewrite Hn, orb_true_r. }
    split.
    + apply (reduce_min_bound (np.fmin float64) _); [|done..].
      intros io1 in2 _ Hin2. unfold np.fmin. by rewrite Hin2, orb_false_r.
    + apply (reduce_max_bound (np.fmax float64) _); [|done..].
      intros io1 in2 _ Hin2. unfold np.fmax. by rewrite Hin2, orb_false_r.
Qed.

Lemma compute_float_extrema_witness :
  dtype nonfinite_array = float64 /\
  Binary64.pos_zero ∈ data nonfinite_array /\
  (np.isfinite_elem float64 Binary64.pos_zero = true ->
   np.le float64 (compute x86_64 finite_min nonfinite_array) Binary64.pos_zero = true /\
   np.le float64 Binary64.pos_zero (compute x86_64 finite_max nonfinite_array) = true).
Proof.
  assert (Binary64.pos_zero ∈ data nonfinite_array) as Hin.
  { apply list_elem_of_lookup. by exists 4%nat. }
  split; [reflexivity|]. split; [exact Hin|].
  apply (compute_float_extrema x86_64 nonfinite_array Binary64.pos_zero);
    [reflexivity|exact Hin].
Defined.

(** ** [decode] with an output buffer *)


